(** * go-s3-storage: a shallow embedding of [s3storage.go]

    The file follows the layout of the Go package:
    - [Errors]: Go error values, wrapping with [%w], [errors.Is] and
      [errors.As] for the target types the package inspects;
    - [Io]: [io.Reader] values as the package builds and consumes them
      ([bytes.NewReader], [io.MultiReader], [io.ReadFull]);
    - [Aws]: the request records and the client/transfer-manager surface
      of the SDK that the package calls;
    - [S3storage]: the package itself ([Config], [SaveOptions],
      [NewS3Storage], [Save], [Open], [Download], [Exists], [Delete]);
    - [MemS3] and [Pipeline]: an in-memory object store and the part based
      transfer pipeline of the design document, used for the round trip. *)

From Stdlib Require Import NArith Lia.
From stdpp Require Import base option list strings gmap.

Open Scope string_scope.
Open Scope list_scope.
Open Scope stdpp_scope.

(** ** Go error values *)

Module Errors.

(** The error values that reach the package. Sentinels created with
    [errors.New] are compared by identity in Go, so each one is a
    constructor of its own. [Wrapped msg cause] is what
    [fmt.Errorf("...%w", cause)] returns: [Error()] is the formatted
    text and [Unwrap()] is [cause]. The SDK wraps the errors of the
    service the same way. *)
Inductive error : Type :=
| EOF                                   (* io.EOF *)
| ErrUnexpectedEOF                      (* io.ErrUnexpectedEOF *)
| ErrNotFound                           (* s3storage.ErrNotFound *)
| NoSuchKey (message : string)          (* *types.NoSuchKey *)
| NotFound (message : string)           (* *types.NotFound *)
| GenericAPIError (code message : string) (* *smithy.GenericAPIError *)
| Opaque (text : string)                (* any other leaf error *)
| Wrapped (text : string) (cause : error).

#[global] Instance error_eq_dec : EqDecision error.
Proof. solve_decision. Defined.

(** [err.Error()] *)
Definition Error (e : error) : string :=
  match e with
  | EOF => "EOF"
  | ErrUnexpectedEOF => "unexpected EOF"
  | ErrNotFound => "file not found"
  | NoSuchKey m => "NoSuchKey: " +:+ m
  | NotFound m => "NotFound: " +:+ m
  | GenericAPIError c m => "api error " +:+ c +:+ ": " +:+ m
  | Opaque t => t
  | Wrapped t _ => t
  end.

(** [errors.Unwrap] *)
Definition Unwrap (e : error) : option error :=
  match e with
  | Wrapped _ c => Some c
  | _ => None
  end.

(** [errors.Is(e, target)]: walk the chain, comparing with [==]. *)
Fixpoint Is (e target : error) : bool :=
  bool_decide (e = target) ||
  match e with
  | Wrapped _ c => Is c target
  | _ => false
  end.

(** [errors.As(e, &t)] with [t : *types.NoSuchKey]. *)
Fixpoint As_NoSuchKey (e : error) : option string :=
  match e with
  | NoSuchKey m => Some m
  | Wrapped _ c => As_NoSuchKey c
  | _ => None
  end.

(** [errors.As(e, &t)] with [t : *types.NotFound]. *)
Fixpoint As_NotFound (e : error) : option string :=
  match e with
  | NotFound m => Some m
  | Wrapped _ c => As_NotFound c
  | _ => None
  end.

(** [errors.As(e, &t)] with [t : smithy.APIError]; the result is the pair
    [(t.ErrorCode(), t.ErrorMessage())]. The two S3 error types and the
    generic API error implement the interface. *)
Fixpoint As_APIError (e : error) : option (string * string) :=
  match e with
  | NoSuchKey m => Some ("NoSuchKey", m)
  | NotFound m => Some ("NotFound", m)
  | GenericAPIError c m => Some (c, m)
  | Wrapped _ c => As_APIError c
  | _ => None
  end.

(** [s] occurs in [t]. *)
Definition mentions (t s : string) : Prop :=
  exists pre post, t = pre +:+ s +:+ post.

(** [cause] can be inspected through [e]: [errors.Is] finds in [e] every
    target it finds in [cause], [cause] itself among them, and [errors.As]
    finds in [e] the typed errors it finds in [cause]. *)
Definition reaches (e cause : error) : Prop :=
  Is e cause = true /\
  (forall target, Is cause target = true -> Is e target = true) /\
  (forall m, As_NoSuchKey cause = Some m -> As_NoSuchKey e = Some m) /\
  (forall m, As_NotFound cause = Some m -> As_NotFound e = Some m) /\
  (forall c, As_APIError cause = Some c -> As_APIError e = Some c).

(** A generic transfer failure for the object [key] of [container]: an
    error that wraps [cause] (so it is none of the sentinels) and whose
    text names the container and the key and carries the text of
    [cause]. *)
Definition genericFailure (container key : string) (cause e : error) : Prop :=
  Unwrap e = Some cause /\
  mentions (Error e) container /\ mentions (Error e) key /\
  mentions (Error e) (Error cause) /\
  reaches e cause.

End Errors.

(** ** Go readers *)

Module Io.
Import Errors.

Abbreviation bytes := (list Byte.byte).

(** The [io.Reader] values of the package. [Source pending final] is a
    reader supplied by the caller: every element of [pending] is the data
    one [Read] call has available (a call with a smaller buffer takes a
    prefix and leaves the rest), and once [pending] is used up every
    [Read] returns [0, final]. [BytesReader s] is [bytes.NewReader(s)]
    and [MultiReader first rest] is [io.MultiReader(first, rest)], the
    only shape [Save] builds. *)
Inductive Reader : Type :=
| Source (pending : list bytes) (final : error)
| BytesReader (s : bytes)
| MultiReader (first rest : Reader).

(** [r.Read(p)] with [len(p) = k]: the bytes copied into [p], the error
    and the reader afterwards. For [MultiReader], a first reader that
    reports [EOF] is dropped; when it delivered bytes with the [EOF] the
    bytes are returned without error because a reader remains, and when
    it delivered none the loop goes on with the next reader. *)
Fixpoint Read (r : Reader) (k : N) : bytes * option error * Reader :=
  match r with
  | Source [] final => ([], Some final, r)
  | Source (c :: pending) final =>
      if (N.of_nat (length c) <=? k)%N
      then (c, None, Source pending final)
      else (take (N.to_nat k) c, None,
            Source (drop (N.to_nat k) c :: pending) final)
  | BytesReader [] => ([], Some EOF, r)
  | BytesReader s =>
      if (N.of_nat (length s) <=? k)%N
      then (s, None, BytesReader [])
      else (take (N.to_nat k) s, None, BytesReader (drop (N.to_nat k) s))
  | MultiReader first rest =>
      let '(d, e, first') := Read first k in
      match e with
      | Some EOF =>
          match d with
          | [] => Read rest k
          | _ => (d, None, rest)
          end
      | _ => (d, e, MultiReader first' rest)
      end
  end.

(** A bound on the number of [Read] calls a reader answers without
    error. *)
Fixpoint calls (r : Reader) : nat :=
  match r with
  | Source pending _ => list_sum ((fun c => S (length c)) <$> pending)
  | BytesReader s => length s
  | MultiReader first rest => S (calls first + calls rest)
  end.

(** The error that ends the stream. *)
Fixpoint terminal (r : Reader) : error :=
  match r with
  | Source _ final => final
  | BytesReader _ => EOF
  | MultiReader first rest =>
      match terminal first with
      | EOF => terminal rest
      | e => e
      end
  end.

(** The bytes a reader delivers before [terminal]. *)
Fixpoint contents (r : Reader) : bytes :=
  match r with
  | Source pending _ => concat pending
  | BytesReader s => s
  | MultiReader first rest =>
      match terminal first with
      | EOF => contents first ++ contents rest
      | _ => contents first
      end
  end.

(** The loop of [io.ReadAtLeast(r, buf, min)] with [min = len(buf) = size]:
    [for n < min && err == nil { nn, err = r.Read(buf[n:]); n += nn }].
    [got] is [buf[:n]]. The loop runs at most [calls r + 1] times; [fuel]
    counts them down. *)
Fixpoint ReadFull_loop (fuel : nat) (r : Reader) (size : N) (got : bytes)
  : bytes * option error * Reader :=
  match fuel with
  | O => (got, None, r)
  | S fuel' =>
      if (N.of_nat (length got) <? size)%N then
        let '(d, e, r') := Read r (size - N.of_nat (length got)) in
        match e with
        | None => ReadFull_loop fuel' r' size (got ++ d)
        | Some _ => (got ++ d, e, r')
        end
      else (got, None, r)
  end.

(** [io.ReadFull(r, buf)] with [len(buf) = size]: the filled prefix
    [buf[:n]], the error, and the reader afterwards. After the loop,
    [if n >= min { err = nil } else if n > 0 && err == EOF
    { err = ErrUnexpectedEOF }]. *)
Definition ReadFull (r : Reader) (size : N) : bytes * option error * Reader :=
  let '(got, e, r') := ReadFull_loop (S (calls r)) r size [] in
  let e' :=
    if (size <=? N.of_nat (length got))%N then None
    else match got, e with
         | _ :: _, Some EOF => Some ErrUnexpectedEOF
         | _, _ => e
         end in
  (got, e', r').

(** [io.ReadAll]-style draining with reads of [k] bytes: all bytes up to
    the first error, and that error. *)
Fixpoint drain (fuel : nat) (r : Reader) (k : N) : bytes * option error :=
  match fuel with
  | O => ([], None)
  | S fuel' =>
      let '(d, e, r') := Read r k in
      match e with
      | None => let '(ds, e') := drain fuel' r' k in (d ++ ds, e')
      | Some _ => (d, e)
      end
  end.

Definition ReadAll (r : Reader) (k : N) : bytes * option error :=
  drain (S (calls r)) r k.

End Io.

(** ** The SDK surface the package calls *)

Module Aws.
Import Errors Io.

(** [s3.PutObjectInput]: the fields the package sets. [ContentType] is a
    [*string] in Go; [None] is the nil pointer. *)
Record PutObjectInput : Type := {
  put_Bucket : string;
  put_Key : string;
  put_Body : Reader;
  put_ContentType : option string;
}.

Record GetObjectInput : Type := { get_Bucket : string; get_Key : string }.
Record HeadObjectInput : Type := { head_Bucket : string; head_Key : string }.
Record DeleteObjectInput : Type := { del_Bucket : string; del_Key : string }.

(** [credentials.NewStaticCredentialsProvider(key, secret, session)] *)
Record StaticCredentialsProvider : Type := {
  AccessKeyID : string;
  SecretAccessKey : string;
  SessionToken : string;
}.

(** The [config.With...] load options the package uses. *)
Inductive LoadOption : Type :=
| WithRegion (region : string)
| WithBaseEndpoint (endpoint : string)
| WithCredentialsProvider (p : StaticCredentialsProvider).

(** [*s3.Client] over a backend state [W]: each call returns its result
    and the backend state afterwards. The calls are those of the
    backend gateway: put, get, ranged get, head and delete.
    [GetObjectRange] returns the bytes of the range and the total length
    of the object. *)
Record Client (W : Type) : Type := {
  PutObject : string -> string -> bytes -> option string -> W -> option error * W;
  GetObject : GetObjectInput -> W -> (error + Reader) * W;
  GetObjectRange : GetObjectInput -> N -> N -> W -> (error + bytes * N) * W;
  HeadObject : HeadObjectInput -> W -> option error * W;
  DeleteObject : DeleteObjectInput -> W -> option error * W;
}.
Arguments PutObject {W}.
Arguments GetObject {W}.
Arguments GetObjectRange {W}.
Arguments HeadObject {W}.
Arguments DeleteObject {W}.

(** [manager.Uploader] and [manager.Downloader]: the settings an option
    function can change, and the client they transfer through. *)
Module Uploader.
Record t (W : Type) : Type := {
  PartSize : Z;
  Concurrency : Z;
  S3 : Client W;
}.
Arguments PartSize {W}.
Arguments Concurrency {W}.
Arguments S3 {W}.
End Uploader.

Module Downloader.
Record t (W : Type) : Type := {
  PartSize : Z;
  Concurrency : Z;
  S3 : Client W;
}.
Arguments PartSize {W}.
Arguments Concurrency {W}.
Arguments S3 {W}.
End Downloader.

(** [manager.DefaultUploadPartSize], [manager.DefaultUploadConcurrency],
    [manager.DefaultDownloadPartSize], [manager.DefaultDownloadConcurrency] *)
Definition DefaultUploadPartSize : Z := 1024 * 1024 * 5.
Definition DefaultUploadConcurrency : Z := 5.
Definition DefaultDownloadPartSize : Z := 1024 * 1024 * 5.
Definition DefaultDownloadConcurrency : Z := 5.

(** [manager.NewUploader(client, options...)]: the defaults, then the
    option function. *)
Definition NewUploader {W} (client : Client W)
    (option : Uploader.t W -> Uploader.t W) : Uploader.t W :=
  option {| Uploader.PartSize := DefaultUploadPartSize;
            Uploader.Concurrency := DefaultUploadConcurrency;
            Uploader.S3 := client |}.

(** [manager.NewDownloader(client, options...)] *)
Definition NewDownloader {W} (client : Client W)
    (option : Downloader.t W -> Downloader.t W) : Downloader.t W :=
  option {| Downloader.PartSize := DefaultDownloadPartSize;
            Downloader.Concurrency := DefaultDownloadConcurrency;
            Downloader.S3 := client |}.

End Aws.

(** ** Package [s3storage] *)

Module S3storage.
Import Errors Io Aws.

(** [type Config struct] *)
Record Config : Type := {
  cfg_Bucket : string;
  Region : string;
  Endpoint : string;
  AccessKey : string;
  SecretKey : string;
}.

(** [type S3Storage struct] *)
Record S3Storage (W : Type) : Type := {
  Bucket : string;
  client : Client W;
  uploader : Uploader.t W;
  downloader : Downloader.t W;
}.
Arguments Bucket {W}.
Arguments client {W}.
Arguments uploader {W}.
Arguments downloader {W}.

(** [type SaveOptions struct] *)
Record SaveOptions : Type := {
  ContentType : string;
  AutoContentType : bool;
}.

(** [type SaveOption func(o)] with [o] a pointer to [SaveOptions]: the
    mutation of the pointed-to value is the function from the old value to
    the new one. *)
Definition SaveOption : Type := SaveOptions -> SaveOptions.

Definition WithContentType (ct : string) : SaveOption :=
  fun o => {| ContentType := ct; AutoContentType := AutoContentType o |}.

Definition WithAutoContentType : SaveOption :=
  fun o => {| ContentType := ContentType o; AutoContentType := true |}.

(** Lines 99-102 of [Save]: [options := SaveOptions{}] and the loop
    [for _, opt := range opts { opt(&options) }]. *)
Definition resolveOptions (opts : list SaveOption) : SaveOptions :=
  fold_left (fun options opt => opt options) opts
            {| ContentType := ""; AutoContentType := false |}.

(** The size of the sniffing buffer, [make([]byte, 512)]. *)
Definition sniffLen : N := 512.

Section Facade.
(** The state of the remote store and the type of the caller's
    [io.WriterAt]. *)
Context {W WriterAt : Type}.

(** [http.DetectContentType] *)
Variable DetectContentType : bytes -> string.
(** [config.LoadDefaultConfig] (the loaded [aws.Config] is opaque to the
    package) and [s3.NewFromConfig] *)
Context {AwsConfig : Type}.
Variable LoadDefaultConfig : list LoadOption -> error + AwsConfig.
Variable NewFromConfig : AwsConfig -> Client W.
(** [manager.Uploader.Upload] and [manager.Downloader.Download];
    the latter returns the sink as the transfer left it. *)
Variable Uploader_Upload : Uploader.t W -> PutObjectInput -> W -> option error * W.
Variable Downloader_Download :
  Downloader.t W -> WriterAt -> GetObjectInput -> W -> (WriterAt * option error) * W.

(** [func NewS3Storage(ctx, cfg)], returning the storage or an error *)
Definition NewS3Storage (cfg : Config) : error + S3Storage W :=
  let configOptions :=
    [WithRegion (Region cfg); WithBaseEndpoint (Endpoint cfg)] in
  let configOptions :=
    if bool_decide (AccessKey cfg <> "") && bool_decide (SecretKey cfg <> "")
    then
      let provider :=
        {| AccessKeyID := AccessKey cfg;
           SecretAccessKey := SecretKey cfg;
           SessionToken := "" |} in
      configOptions ++ [WithCredentialsProvider provider]
    else configOptions in
  match LoadDefaultConfig configOptions with
  | inl err => inl (Wrapped ("failed to load AWS config: " +:+ Error err) err)
  | inr s3cfg =>
      let client := NewFromConfig s3cfg in
      let uploader :=
        NewUploader client (fun u =>
          {| Uploader.PartSize := 5 * 1024 * 1024;
             Uploader.Concurrency := 1;
             Uploader.S3 := Uploader.S3 u |}) in
      let downloader :=
        NewDownloader client (fun d =>
          {| Downloader.PartSize := 5 * 1024 * 1024;
             Downloader.Concurrency := 1;
             Downloader.S3 := Downloader.S3 d |}) in
      inr {| Bucket := cfg_Bucket cfg;
             client := client;
             uploader := uploader;
             downloader := downloader |}
  end.

(** Lines 104-128 of [Save]: the sniffing step and the construction of
    the [PutObjectInput]. The result is the error [Save] returns
    before any upload, or the input it hands to the uploader. *)
Definition putObjectInput (s : S3Storage W) (path : string) (r : Reader)
    (options : SaveOptions) : error + PutObjectInput :=
  let sniffed : error + (SaveOptions * Reader) :=
    if bool_decide (ContentType options = "") && AutoContentType options then
      let '(buf, err, r') := ReadFull r sniffLen in
      let detect :=
        match buf with
        | [] => (options, r')
        | _ :: _ =>
            ({| ContentType := DetectContentType buf;
                AutoContentType := AutoContentType options |},
             MultiReader (BytesReader buf) r')
        end in
      match err with
      | Some e =>
          if bool_decide (e <> ErrUnexpectedEOF) && bool_decide (e <> EOF)
          then inl (Wrapped
            ("failed to read file header for content-type detection: "
             +:+ Error e) e)
          else inr detect
      | None => inr detect
      end
    else inr (options, r) in
  match sniffed with
  | inl e => inl e
  | inr (options, r) =>
      inr {| put_Bucket := Bucket s;
             put_Key := path;
             put_Body := r;
             put_ContentType :=
               if bool_decide (ContentType options <> "")
               then Some (ContentType options) else None |}
  end.

(** Lines 130-139 of [Save]: the translation of the uploader's error. *)
Definition uploadError (s : S3Storage W) (path : string) (err : error) : error :=
  match As_APIError err with
  | Some (code, message) =>
      Wrapped ("s3 upload failed for bucket " +:+ Bucket s +:+ ", key "
               +:+ path +:+ ": " +:+ message +:+ " (AWS code: " +:+ code
               +:+ "): " +:+ Error err) err
  | None =>
      Wrapped ("couldn't upload file " +:+ path +:+ " to " +:+ Bucket s
               +:+ ": " +:+ Error err) err
  end.

(** [func (s *S3Storage) Save(ctx, path, r, opts...) error] *)
Definition Save (s : S3Storage W) (path : string) (r : Reader)
    (opts : list SaveOption) (w : W) : option error * W :=
  let options := resolveOptions opts in
  match putObjectInput s path r options with
  | inl e => (Some e, w)
  | inr input =>
      let '(err, w') := Uploader_Upload (uploader s) input w in
      match err with
      | Some err => (Some (uploadError s path err), w')
      | None => (None, w')
      end
  end.

(** [func (s *S3Storage) Open(ctx, path) (io.ReadCloser, error)] *)
Definition Open (s : S3Storage W) (path : string) (w : W)
  : (error + Reader) * W :=
  let '(resp, w') :=
    GetObject (client s) {| get_Bucket := Bucket s; get_Key := path |} w in
  match resp with
  | inl err =>
      match As_NoSuchKey err with
      | Some _ => (inl ErrNotFound, w')
      | None =>
          (inl (Wrapped ("failed to open " +:+ path +:+ " from "
                         +:+ Bucket s +:+ ": " +:+ Error err) err), w')
      end
  | inr body => (inr body, w')
  end.

(** [func (s *S3Storage) Download(ctx, path, w io.WriterAt) error] *)
Definition Download (s : S3Storage W) (path : string) (sink : WriterAt) (w : W)
  : (WriterAt * option error) * W :=
  let '(sink', err, w') :=
    Downloader_Download (downloader s) sink
             {| get_Bucket := Bucket s; get_Key := path |} w in
  match err with
  | Some err =>
      match As_NoSuchKey err with
      | Some _ => (sink', Some ErrNotFound, w')
      | None =>
          (sink', Some (Wrapped ("failed to download " +:+ path +:+ " from "
                                 +:+ Bucket s +:+ ": " +:+ Error err) err), w')
      end
  | None => (sink', None, w')
  end.

(** [func (s *S3Storage) Exists(ctx, path) (bool, error)] *)
Definition Exists (s : S3Storage W) (path : string) (w : W)
  : (bool * option error) * W :=
  let '(err, w') :=
    HeadObject (client s) {| head_Bucket := Bucket s; head_Key := path |} w in
  match err with
  | None => (true, None, w')
  | Some err =>
      match As_NotFound err with
      | Some _ => (false, None, w')
      | None =>
          (false, Some (Wrapped ("failed to check existence of " +:+ path
                                 +:+ " in " +:+ Bucket s +:+ ": "
                                 +:+ Error err) err), w')
      end
  end.

(** [func (s *S3Storage) Delete(ctx, path) error] *)
Definition Delete (s : S3Storage W) (path : string) (w : W)
  : option error * W :=
  let '(err, w') :=
    DeleteObject (client s) {| del_Bucket := Bucket s; del_Key := path |} w in
  match err with
  | Some err =>
      (Some (Wrapped ("couldn't delete file " +:+ path +:+ " from "
                      +:+ Bucket s +:+ ": " +:+ Error err) err), w')
  | None => (None, w')
  end.

End Facade.
End S3storage.

(** ** An object store behind the gateway *)

Module MemS3.
Import Errors Io Aws.

Record object : Type := { data : bytes; contentType : option string }.

(** The objects of the store, by container and key. *)
Abbreviation store := (gmap (string * string) object).

(** What the SDK returns for a key that does not exist: the operation
    error wrapping the typed service error. *)
Definition noSuchKey (operation : string) : error :=
  Wrapped ("operation error S3: " +:+ operation
           +:+ ", https response error StatusCode: 404, NoSuchKey: "
           +:+ "The specified key does not exist.")
          (NoSuchKey "The specified key does not exist.").

Definition notFound (operation : string) : error :=
  Wrapped ("operation error S3: " +:+ operation
           +:+ ", https response error StatusCode: 404, NotFound: Not Found")
          (NotFound "Not Found").

(** The bytes of [bs] in the range that starts at [off] and is [len]
    long, cut at the end of [bs]. *)
Definition range (bs : bytes) (off len : N) : bytes :=
  let rest := if (N.of_nat (length bs) <=? off)%N then []
              else drop (N.to_nat off) bs in
  if (N.of_nat (length rest) <=? len)%N then rest
  else take (N.to_nat len) rest.

(** Modelled from the spec: the Backend Gateway collaborator of section 6
    (the remote store and the SDK client are not part of the
    repository): put, get, ranged get, head and delete on the objects of
    a store, a missing key being reported as "no such key" by the reads
    and as "not found" by head. *)
Definition client : Client store := {|
  PutObject container key bs ct st :=
    (None, <[(container, key) := {| data := bs; contentType := ct |}]> st);
  GetObject input st :=
    match st !! (get_Bucket input, get_Key input) with
    | Some o => (inr (BytesReader (data o)), st)
    | None => (inl (noSuchKey "GetObject"), st)
    end;
  GetObjectRange input off len st :=
    match st !! (get_Bucket input, get_Key input) with
    | Some o => (inr (range (data o) off len, N.of_nat (length (data o))), st)
    | None => (inl (noSuchKey "GetObject"), st)
    end;
  HeadObject input st :=
    match st !! (head_Bucket input, head_Key input) with
    | Some _ => (None, st)
    | None => (Some (notFound "HeadObject"), st)
    end;
  DeleteObject input st :=
    (None, delete (del_Bucket input, del_Key input) st);
|}.

End MemS3.

(** ** The transfer pipeline *)

Module Pipeline.
Import Errors Io Aws.

(** Modelled from the spec: the split of section 4.2 (the transfer
    manager of the SDK is not part of the repository): the stream is cut
    into parts of the configured fixed size, the last one possibly
    shorter. [fuel] bounds the number of parts. *)
Fixpoint split_parts (fuel : nat) (ps : N) (bs : bytes) : list bytes :=
  match fuel with
  | O => []
  | S fuel' =>
      match bs with
      | [] => []
      | _ :: _ =>
          if (N.of_nat (length bs) <=? ps)%N then [bs]
          else take (N.to_nat ps) bs
                 :: split_parts fuel' ps (drop (N.to_nat ps) bs)
      end
  end.

(** Modelled from the spec: the sequence numbers of section 4.2, given
    to the parts at split time. *)
Fixpoint number (i : N) (parts : list bytes) : list (N * bytes) :=
  match parts with
  | [] => []
  | p :: parts' => (i, p) :: number (N.succ i) parts'
  end.

(** Modelled from the spec: the parts the workers of section 4.2 have
    delivered, by sequence number, whatever the order of completion. *)
Definition stage (done : list (N * bytes)) : gmap N bytes :=
  list_to_map done.

(** Modelled from the spec: the reassembly of section 4.2, in
    sequence-number order, of [count] parts from number [i] on. *)
Fixpoint reassemble (staged : gmap N bytes) (i : N) (count : nat) : bytes :=
  match count with
  | O => []
  | S count' =>
      default [] (staged !! i) ++ reassemble staged (N.succ i) count'
  end.

(** Modelled from the spec: the upload of section 4.2 (the transfer
    manager of the SDK is not part of the repository). The source is
    read to its end in reads of one part; a read error aborts the upload
    and nothing is committed; otherwise the parts are numbered,
    delivered, reassembled in sequence order and committed by one
    finalize step. Reads of zero bytes make no progress, so a part size
    of zero is a failure as well. *)
Definition Upload {W} (u : Uploader.t W) (input : PutObjectInput) (w : W)
  : option error * W :=
  let ps := Z.to_N (Uploader.PartSize u) in
  match ReadAll (put_Body input) ps with
  | (bs, Some EOF) =>
      let parts := split_parts (length bs) ps bs in
      let staged := stage (number 1 parts) in
      PutObject (Uploader.S3 u) (put_Bucket input) (put_Key input)
                (reassemble staged 1 (length parts))
                (put_ContentType input) w
  | (_, Some err) =>
      (Some (Wrapped ("read upload data failed: " +:+ Error err) err), w)
  | (_, None) =>
      (Some (Opaque "read upload data failed: no progress"), w)
  end.

(** A random-access sink: the byte at each offset written so far. *)
Abbreviation sink := (gmap N Byte.byte).

(** [w.WriteAt(p, off)] on that sink. *)
Fixpoint WriteAt (w : sink) (p : bytes) (off : N) : sink :=
  match p with
  | [] => w
  | b :: p' => WriteAt (<[off := b]> w) p' (N.succ off)
  end.

(** Modelled from the spec: the part workers of section 4.3, one range
    read per part, each part written at its own offset; a failed part
    aborts the download. [n] is the number of parts still to fetch and
    [pos] the offset of the next one. *)
Fixpoint fetch {W} (n : nat) (d : Downloader.t W) (input : GetObjectInput)
    (ps pos : N) (dst : sink) (w : W) : (sink * option error) * W :=
  match n with
  | O => (dst, None, w)
  | S n' =>
      let '(res, w') := GetObjectRange (Downloader.S3 d) input pos ps w in
      match res with
      | inl err => (dst, Some err, w')
      | inr (part, _) =>
          fetch n' d input ps (pos + ps)%N (WriteAt dst part pos) w'
      end
  end.

(** Modelled from the spec: the sink-mode download of section 4.3 (the
    transfer manager of the SDK is not part of the repository). The
    first range read discovers the length of the object, and a missing
    object is reported before any part is written; the rest of the byte
    range is split into parts of the configured size. *)
Definition Download {W} (d : Downloader.t W) (dst : sink)
    (input : GetObjectInput) (w : W) : (sink * option error) * W :=
  let ps := Z.to_N (Downloader.PartSize d) in
  let '(res, w') := GetObjectRange (Downloader.S3 d) input 0 ps w in
  match res with
  | inl err => (dst, Some err, w')
  | inr (part, total) =>
      fetch (N.to_nat ((total - 1) / ps)) d input ps ps
            (WriteAt dst part 0) w'
  end.

End Pipeline.

(** ** Concrete values for the examples *)

Module Fixtures.
Import Errors Io Aws S3storage.

(** The content of the scenario of the design document. *)
Definition hello : bytes := String.list_byte_of_string "hello world".

(** A stand-in for [http.DetectContentType] in the examples. *)
Definition detect (buf : bytes) : string := "text/plain; charset=utf-8".

Definition load (options : list LoadOption) : error + unit := inr tt.

Definition cfg : Config :=
  {| cfg_Bucket := "bucket"; Region := "us-east-1"; Endpoint := "";
     AccessKey := ""; SecretKey := "" |}.

(** The storage [NewS3Storage] builds from [cfg] over the object store. *)
Definition storage : S3Storage MemS3.store :=
  {| Bucket := "bucket";
     client := MemS3.client;
     uploader := {| Uploader.PartSize := 5242880;
                    Uploader.Concurrency := 1;
                    Uploader.S3 := MemS3.client |};
     downloader := {| Downloader.PartSize := 5242880;
                      Downloader.Concurrency := 1;
                      Downloader.S3 := MemS3.client |} |}.

(** A storage with parts of four and three bytes, to see several parts
    on a short content. *)
Definition smallParts : S3Storage MemS3.store :=
  {| Bucket := "bucket";
     client := MemS3.client;
     uploader := {| Uploader.PartSize := 4;
                    Uploader.Concurrency := 1;
                    Uploader.S3 := MemS3.client |};
     downloader := {| Downloader.PartSize := 3;
                      Downloader.Concurrency := 1;
                      Downloader.S3 := MemS3.client |} |}.

(** An uploader that records the inputs it is given. *)
Definition recordUpload (u : Uploader.t (list PutObjectInput))
    (input : PutObjectInput) (log : list PutObjectInput)
  : option error * list PutObjectInput :=
  (None, log ++ [input]).

(** A client whose every call fails with [failure] and leaves the
    backend as it is. *)
Definition failing {W} (failure : error) : Client W := {|
  PutObject _ _ _ _ w := (Some failure, w);
  GetObject _ w := (inl failure, w);
  GetObjectRange _ _ _ w := (inl failure, w);
  HeadObject _ w := (Some failure, w);
  DeleteObject _ w := (Some failure, w);
|}.

Definition failingStorage {W} (failure : error) : S3Storage W :=
  {| Bucket := "bucket";
     client := failing failure;
     uploader := {| Uploader.PartSize := 5242880;
                    Uploader.Concurrency := 1;
                    Uploader.S3 := failing failure |};
     downloader := {| Downloader.PartSize := 5242880;
                      Downloader.Concurrency := 1;
                      Downloader.S3 := failing failure |} |}.

(** A source that breaks after its first eleven bytes. *)
Definition broken : Reader := Source [hello] (Opaque "connection reset").

Definition accessDenied : error :=
  Wrapped "operation error S3: https response error StatusCode: 403, AccessDenied"
          (GenericAPIError "AccessDenied" "Access Denied").

End Fixtures.

(** * Properties *)

Import Errors Io Aws S3storage.

(** ** Errors *)

Lemma append_assoc (a b c : string) : (a +:+ b) +:+ c = a +:+ (b +:+ c).
Proof.
  induction a as [|x a IH]; [done |].
  change (String x ((a +:+ b) +:+ c) = String x (a +:+ b +:+ c)).
  by rewrite IH.
Qed.

Lemma Is_refl e : Is e e = true.
Proof.
  destruct e; cbn [Is]; apply orb_true_intro; left;
    by apply bool_decide_eq_true_2.
Qed.

Lemma Is_Wrapped t c target : Is c target = true -> Is (Wrapped t c) target = true.
Proof. intros H. cbn [Is]. rewrite H. apply orb_true_r. Qed.

(** ** Readers *)

(** A [Read] that reports an error delivers no byte, the stream was at its
    end, and it stays there. *)
Lemma Read_error r : forall k d e r',
  Read r k = (d, Some e, r') ->
  d = [] /\ contents r = [] /\ terminal r = e /\
  contents r' = [] /\ terminal r' = e.
Proof.
  induction r as [pending final | s | first IH1 rest IH2]; intros k d e r' H.
  - destruct pending as [|c pending]; cbn in H.
    + by simplify_eq.
    + by case_match; simplify_eq.
  - destruct s as [|b s]; cbn -[N.leb] in H.
    + by simplify_eq.
    + by case_match; simplify_eq.
  - cbn in H. destruct (Read first k) as [[d1 e1] first'] eqn:H1.
    destruct e1 as [e1|]; [| by simplify_eq].
    destruct (IH1 _ _ _ _ H1) as (-> & Hc & Ht & Hc' & Ht').
    destruct (decide (e1 = EOF)) as [-> | Hne].
    + destruct (IH2 _ _ _ _ H) as (-> & Hc2 & Ht2 & Hc2' & Ht2').
      cbn. rewrite Ht, Hc, Hc2. done.
    + assert ((d, Some e, r') = ([], Some e1, MultiReader first' rest)) as Heq
        by (rewrite <- H; destruct e1; done).
      injection Heq as -> -> ->. cbn. rewrite Ht, Ht', Hc, Hc'.
      by destruct e1.
Qed.

(** A [Read] without error delivers at most [k] bytes, which are the next
    bytes of the stream, and the reader has fewer calls left. *)
Lemma Read_ok r : forall k d r',
  (0 < k)%N ->
  Read r k = (d, None, r') ->
  contents r = d ++ contents r' /\ terminal r = terminal r' /\
  calls r' < calls r /\ (N.of_nat (length d) <= k)%N.
Proof.
  induction r as [pending final | s | first IH1 rest IH2]; intros k d r' Hk H.
  - destruct pending as [|c pending]; cbn -[N.leb] in H; [done |].
    destruct (N.leb_spec (N.of_nat (length c)) k); simplify_eq;
      cbn; unfold list_sum.
    + repeat split; [lia | done].
    + rewrite app_assoc, take_drop, length_take, length_drop.
      repeat split; lia.
  - destruct s as [|b s]; cbn -[N.leb take drop length] in H; [done |].
    destruct (N.leb_spec (N.of_nat (length (b :: s))) k); simplify_eq.
    + cbn. rewrite app_nil_r. repeat split; [lia | cbn in *; lia].
    + cbn -[take drop]. rewrite take_drop, length_take, length_drop.
      cbn in *. repeat split; lia.
  - cbn in H. destruct (Read first k) as [[d1 e1] first'] eqn:H1.
    destruct e1 as [e1|].
    + destruct (Read_error _ _ _ _ _ H1) as (-> & Hc & Ht & _).
      destruct (decide (e1 = EOF)) as [-> | Hne].
      * destruct (IH2 _ _ _ Hk H) as (Hc2 & Ht2 & Hn & Hl).
        cbn. rewrite Ht, Hc. repeat split; [done | done | lia | done].
      * by destruct e1.
    + simplify_eq.
      destruct (IH1 _ _ _ Hk H1) as (Hc & Ht & Hn & Hl).
      cbn. rewrite <- Ht, Hc.
      repeat split; [| lia | done].
      destruct (terminal first); by rewrite <- ?app_assoc.
Qed.

(** The loop of [io.ReadFull], with enough fuel for the reader: what it
    appends to [got] is the next part of the stream; it ends without error
    only with the buffer full, and with an error only at the end of the
    stream. *)
Lemma ReadFull_loop_spec fuel : forall r size got got' e r',
  calls r < fuel ->
  ReadFull_loop fuel r size got = (got', e, r') ->
  exists d,
    got' = got ++ d /\ contents r = d ++ contents r' /\
    terminal r = terminal r' /\
    (N.of_nat (length got') <= N.max size (N.of_nat (length got)))%N /\
    match e with
    | None => (size <= N.of_nat (length got'))%N
    | Some err =>
        contents r' = [] /\ terminal r = err /\
        (N.of_nat (length got') < size)%N
    end.
Proof.
  induction fuel as [|fuel IH]; intros r size got got' e r' Hf H; [lia |].
  cbn -[N.ltb] in H.
  destruct (N.ltb_spec (N.of_nat (length got)) size) as [Hlt | Hge].
  - destruct (Read r (size - N.of_nat (length got))) as [[d1 e1] r1] eqn:HR.
    destruct e1 as [e1|].
    + simplify_eq.
      destruct (Read_error _ _ _ _ _ HR) as (-> & Hc & Ht & Hc' & Ht').
      exists []. rewrite app_nil_r, Hc, Hc', Ht, Ht'.
      repeat split; [lia | lia].
    + assert (0 < size - N.of_nat (length got))%N as Hk by lia.
      destruct (Read_ok _ _ _ _ Hk HR) as (Hc & Ht & Hn & Hl).
      assert (calls r1 < fuel) as Hf1 by lia.
      destruct (IH _ _ _ _ _ _ Hf1 H) as (d2 & -> & Hc2 & Ht2 & Hb & He).
      exists (d1 ++ d2). rewrite Hc, Hc2, Ht, <- !app_assoc.
      repeat split; [done | | ].
      * rewrite !length_app in *. lia.
      * by rewrite app_assoc.
  - simplify_eq. exists []. rewrite app_nil_r. repeat split; [lia | done].
Qed.

(** More fuel than the reader has calls changes nothing. *)
Lemma ReadFull_loop_fuel f1 : forall f2 r size got,
  calls r < f1 -> calls r < f2 ->
  ReadFull_loop f1 r size got = ReadFull_loop f2 r size got.
Proof.
  induction f1 as [|f1 IH]; intros [|f2] r size got H1 H2; try lia.
  cbn -[N.ltb]. case_match; [| done].
  destruct (Read r (size - N.of_nat (length got))) as [[d e] r'] eqn:HR.
  destruct e; [done |].
  apply N.ltb_lt in H.
  assert (0 < size - N.of_nat (length got))%N as Hk by lia.
  destruct (Read_ok _ _ _ _ Hk HR) as (_ & _ & Hn & _).
  apply IH; lia.
Qed.

(** [io.ReadFull]: the buffer holds the next bytes of the stream and the
    reader is left at what follows them. Without error the buffer is full.
    With an error the stream is used up, and the error is the one that ends
    the stream, but for a stream that ends by [EOF] after at least one
    byte, where it is [ErrUnexpectedEOF]. *)
Lemma ReadFull_spec r size buf e r' :
  ReadFull r size = (buf, e, r') ->
  contents r = buf ++ contents r' /\ terminal r = terminal r' /\
  (N.of_nat (length buf) <= size)%N /\
  match e with
  | None => N.of_nat (length buf) = size
  | Some err =>
      contents r' = [] /\ (N.of_nat (length buf) < size)%N /\
      (err = terminal r /\ (err = EOF -> buf = []) \/
       err = ErrUnexpectedEOF /\ terminal r = EOF /\ buf <> [])
  end.
Proof.
  unfold ReadFull.
  destruct (ReadFull_loop (S (calls r)) r size []) as [[got e0] r0] eqn:HL.
  intros H.
  destruct (ReadFull_loop_spec _ _ _ _ _ _ _ (Nat.lt_succ_diag_r _) HL)
    as (d & Hg & Hc & Ht & Hb & He).
  cbn in Hg, Hb. subst got.
  destruct (N.leb_spec size (N.of_nat (length d))) as [Hle | Hlt]; simplify_eq.
  - repeat split; [done | done | lia | lia].
  - destruct e0 as [e0|]; [| lia].
    destruct He as (Hc' & Hte & _).
    repeat split; [done | done | lia | ].
    destruct buf as [|b buf].
    + repeat split; [done | lia | left; split; [congruence | done]].
    + destruct (decide (e0 = EOF)) as [-> | Hne].
      * repeat split; [done | lia | right; repeat split; congruence].
      * assert (forall o : option error,
                  match e0 with EOF => o | _ => Some e0 end = Some e0) as ->
          by (by destruct e0).
        repeat split; [done | lia | left; split; [congruence | congruence]].
Qed.

(** Draining a reader with reads of [k > 0] bytes delivers its contents and
    ends with its terminal error; the fuel [ReadAll] gives is enough. *)
Lemma drain_spec fuel : forall r k,
  (0 < k)%N -> calls r < fuel ->
  drain fuel r k = (contents r, Some (terminal r)).
Proof.
  induction fuel as [|fuel IH]; intros r k Hk Hf; [lia |].
  cbn. destruct (Read r k) as [[d e] r'] eqn:HR.
  destruct e as [e|].
  - destruct (Read_error _ _ _ _ _ HR) as (-> & -> & -> & _). done.
  - destruct (Read_ok _ _ _ _ Hk HR) as (-> & -> & Hn & _).
    by rewrite IH by lia.
Qed.

Lemma ReadAll_spec r k :
  (0 < k)%N -> ReadAll r k = (contents r, Some (terminal r)).
Proof. intros Hk. apply drain_spec; [done | lia]. Qed.

(** ** Save: options, sniffing and the upload input *)

Lemma resolveOptions_snoc opts o :
  resolveOptions (opts ++ [o]) = o (resolveOptions opts).
Proof. unfold resolveOptions. by rewrite fold_left_app. Qed.

Lemma resolveOptions_app_preserved (keeps : SaveOption -> Prop)
    (P : SaveOptions -> Prop) before after :
  (forall o x, keeps o -> P x -> P (o x)) ->
  Forall keeps after ->
  P (resolveOptions before) -> P (resolveOptions (before ++ after)).
Proof.
  intros Hk Hall. revert before.
  induction Hall as [|o after Ho Hall IH]; intros before HP.
  - by rewrite app_nil_r.
  - replace (before ++ o :: after) with ((before ++ [o]) ++ after)
      by (by rewrite <- app_assoc).
    apply IH. rewrite resolveOptions_snoc. by apply Hk.
Qed.

(** What [Save] does once the options are resolved and the upload input is
    known. *)
Lemma Save_unfold {W} Detect
    (Upload : Uploader.t W -> PutObjectInput -> W -> option error * W)
    (s : S3Storage W) path r opts w :
  Save Detect Upload s path r opts w =
    match putObjectInput Detect s path r (resolveOptions opts) with
    | inl e => (Some e, w)
    | inr input =>
        (uploadError s path <$> (Upload (uploader s) input w).1,
         (Upload (uploader s) input w).2)
    end.
Proof.
  unfold Save. destruct (putObjectInput _ _ _ _ _) as [e | input]; [done |].
  destruct (Upload _ _ _) as [[err|] w']; done.
Qed.

(** The sniffing step, by the result of [io.ReadFull]. *)
Lemma putObjectInput_sniff {W} Detect (s : S3Storage W) path r options buf e r' :
  ContentType options = "" ->
  AutoContentType options = true ->
  ReadFull r sniffLen = (buf, e, r') ->
  putObjectInput Detect s path r options =
    match e with
    | Some err =>
        if bool_decide (err <> ErrUnexpectedEOF) && bool_decide (err <> EOF)
        then inl (Wrapped
               ("failed to read file header for content-type detection: "
                +:+ Error err) err)
        else inr {| put_Bucket := Bucket s; put_Key := path;
                    put_Body := match buf with
                                | [] => r'
                                | _ => MultiReader (BytesReader buf) r'
                                end;
                    put_ContentType :=
                      match buf with
                      | [] => None
                      | _ => if bool_decide (Detect buf <> "")
                             then Some (Detect buf) else None
                      end |}
    | None =>
        inr {| put_Bucket := Bucket s; put_Key := path;
               put_Body := match buf with
                           | [] => r'
                           | _ => MultiReader (BytesReader buf) r'
                           end;
               put_ContentType :=
                 match buf with
                 | [] => None
                 | _ => if bool_decide (Detect buf <> "")
                        then Some (Detect buf) else None
                 end |}
    end.
Proof.
  intros Hct Hauto HR. unfold putObjectInput.
  rewrite Hct, Hauto, HR. cbn [andb].
  rewrite bool_decide_eq_true_2 by done. cbn [andb].
  destruct e as [err|].
  - destruct (bool_decide (err <> ErrUnexpectedEOF) && bool_decide (err <> EOF));
      [done |].
    destruct buf; cbn; [by rewrite Hct | done].
  - destruct buf; cbn; [by rewrite Hct | done].
Qed.

(** Without sniffing the reader is handed over as it came. *)
Lemma putObjectInput_plain {W} Detect (s : S3Storage W) path r options :
  ContentType options <> "" \/ AutoContentType options = false ->
  putObjectInput Detect s path r options =
    inr {| put_Bucket := Bucket s; put_Key := path; put_Body := r;
           put_ContentType :=
             if bool_decide (ContentType options <> "")
             then Some (ContentType options) else None |}.
Proof.
  intros H. unfold putObjectInput.
  destruct H as [H | H].
  - by rewrite (bool_decide_eq_false_2 (ContentType options = "")).
  - rewrite H. by rewrite andb_false_r.
Qed.

(** The body built from a sniffed prefix and the rest of the reader. *)
Lemma sniffed_body buf r r' :
  contents r = buf ++ contents r' ->
  terminal r = terminal r' ->
  let body := match buf with
              | [] => r'
              | _ => MultiReader (BytesReader buf) r'
              end in
  contents body = contents r /\ terminal body = terminal r.
Proof.
  intros Hc Ht. destruct buf; cbn in *; by rewrite Hc, Ht.
Qed.

(** C1: when [Save] is called with AutoContentType enabled and no explicit
    content type, the stream it passes to the upload step reproduces the
    original byte sequence in full, whatever the length of the stream: the
    body of the upload input is the sniffed prefix of at most 512 bytes put
    back in front of the unread rest, it has the contents and the terminal
    error of the source, and
    draining it with reads of any size gives what draining the source gives.
    [Save] stops before the upload only when the source fails with an error
    other than exhaustion within the sniff window. *)
Theorem Save_sniff_preserves_stream {W} Detect
    (Upload : Uploader.t W -> PutObjectInput -> W -> option error * W)
    (s : S3Storage W) path r opts :
  ContentType (resolveOptions opts) = "" ->
  AutoContentType (resolveOptions opts) = true ->
  match putObjectInput Detect s path r (resolveOptions opts) with
  | inl e =>
      terminal r <> EOF /\ terminal r <> ErrUnexpectedEOF /\
      (N.of_nat (length (contents r)) < sniffLen)%N /\
      forall w, Save Detect Upload s path r opts w = (Some e, w)
  | inr input =>
      (forall w, Save Detect Upload s path r opts w =
                 (uploadError s path <$> (Upload (uploader s) input w).1,
                  (Upload (uploader s) input w).2)) /\
      (exists prefix rest,
         (N.of_nat (length prefix) <= sniffLen)%N /\
         contents r = prefix ++ contents rest /\
         put_Body input = match prefix with
                          | [] => rest
                          | _ :: _ => MultiReader (BytesReader prefix) rest
                          end) /\
      contents (put_Body input) = contents r /\
      terminal (put_Body input) = terminal r /\
      forall k, (0 < k)%N -> ReadAll (put_Body input) k = ReadAll r k
  end.
Proof.
  intros Hct Hauto.
  destruct (ReadFull r sniffLen) as [[buf e] r'] eqn:HR.
  pose proof (Save_unfold Detect Upload s path r opts) as HS.
  rewrite (putObjectInput_sniff Detect s path r _ buf e r' Hct Hauto HR) in *.
  destruct (ReadFull_spec _ _ _ _ _ HR) as (Hc & Ht & Hlen & He).
  destruct (sniffed_body buf r r' Hc Ht) as [Hbc Hbt].
  assert (forall input : PutObjectInput,
    contents (put_Body input) = contents r ->
    terminal (put_Body input) = terminal r ->
    forall k, (0 < k)%N -> ReadAll (put_Body input) k = ReadAll r k) as Hdrain.
  { intros input H1 H2 k Hk. rewrite !ReadAll_spec by done. by rewrite H1, H2. }
  assert (exists prefix rest,
            (N.of_nat (length prefix) <= sniffLen)%N /\
            contents r = prefix ++ contents rest /\
            match buf with
            | [] => r'
            | _ :: _ => MultiReader (BytesReader buf) r'
            end = match prefix with
                  | [] => rest
                  | _ :: _ => MultiReader (BytesReader prefix) rest
                  end) as Hshape by (by exists buf, r').
  destruct e as [err|]; [| by repeat split; auto].
  destruct (bool_decide (err <> ErrUnexpectedEOF) && bool_decide (err <> EOF))
    eqn:Hfail; [| by repeat split; auto].
  apply andb_true_iff in Hfail as [H1%bool_decide_eq_true H2%bool_decide_eq_true].
  destruct He as (Hc' & Hlt & [[-> _] | [-> _]]); [| done].
  rewrite Hc, Hc', app_nil_r. repeat split; [done | done | done | done].
Qed.

(** C5: when the sniffing read fails for a reason other than [io.EOF] or
    [io.ErrUnexpectedEOF], [Save] fails with an error that wraps the read
    error, whatever the uploader is, and leaves the backend as it was: no
    upload is attempted. When the read ends with one of the two exhaustion
    errors, or without error, [Save] goes on to the upload and its outcome
    is the uploader's. *)
Theorem Save_sniff_read_failure {W} Detect
    (Upload : Uploader.t W -> PutObjectInput -> W -> option error * W)
    (s : S3Storage W) path r opts w buf e r' :
  ContentType (resolveOptions opts) = "" ->
  AutoContentType (resolveOptions opts) = true ->
  ReadFull r sniffLen = (buf, e, r') ->
  (forall err, e = Some err -> err <> EOF -> err <> ErrUnexpectedEOF ->
     Save Detect Upload s path r opts w =
       (Some (Wrapped ("failed to read file header for content-type detection: "
                       +:+ Error err) err), w)) /\
  (e = None \/ e = Some EOF \/ e = Some ErrUnexpectedEOF ->
     exists input,
       putObjectInput Detect s path r (resolveOptions opts) = inr input /\
       Save Detect Upload s path r opts w =
         (uploadError s path <$> (Upload (uploader s) input w).1,
          (Upload (uploader s) input w).2)).
Proof.
  intros Hct Hauto HR.
  rewrite Save_unfold.
  rewrite (putObjectInput_sniff Detect s path r _ buf e r' Hct Hauto HR).
  split.
  - intros err -> H1 H2.
    rewrite (bool_decide_eq_true_2 (err <> ErrUnexpectedEOF)),
            (bool_decide_eq_true_2 (err <> EOF)) by done.
    done.
  - intros [-> | [-> | ->]]; cbn [andb]; eauto.
Qed.

(** C6: with a non-empty explicit content type no sniffing takes place,
    AutoContentType enabled or not: the reader is handed to the uploader as
    it came, unread, and the explicit content type is the one attached to
    the upload input. *)
Theorem Save_explicit_content_type {W} Detect
    (Upload : Uploader.t W -> PutObjectInput -> W -> option error * W)
    (s : S3Storage W) path r opts w :
  ContentType (resolveOptions opts) <> "" ->
  let input := {| put_Bucket := Bucket s; put_Key := path; put_Body := r;
                  put_ContentType := Some (ContentType (resolveOptions opts)) |} in
  putObjectInput Detect s path r (resolveOptions opts) = inr input /\
  Save Detect Upload s path r opts w =
    (uploadError s path <$> (Upload (uploader s) input w).1,
     (Upload (uploader s) input w).2).
Proof.
  intros Hct input.
  rewrite Save_unfold, putObjectInput_plain by auto.
  by rewrite bool_decide_eq_true_2.
Qed.

(** C7: with sniffing enabled, a stream that ends without delivering a byte
    is not classified: the sniffing step raises no error, the upload input
    carries no content type, its body is the exhausted reader, and [Save]
    goes on to the upload. *)
Theorem Save_empty_stream {W} Detect
    (Upload : Uploader.t W -> PutObjectInput -> W -> option error * W)
    (s : S3Storage W) path r opts w :
  ContentType (resolveOptions opts) = "" ->
  AutoContentType (resolveOptions opts) = true ->
  contents r = [] ->
  terminal r = EOF \/ terminal r = ErrUnexpectedEOF ->
  exists r',
    let input := {| put_Bucket := Bucket s; put_Key := path; put_Body := r';
                    put_ContentType := None |} in
    putObjectInput Detect s path r (resolveOptions opts) = inr input /\
    contents r' = [] /\ terminal r' = terminal r /\
    Save Detect Upload s path r opts w =
      (uploadError s path <$> (Upload (uploader s) input w).1,
       (Upload (uploader s) input w).2).
Proof.
  intros Hct Hauto Hempty Hterm.
  destruct (ReadFull r sniffLen) as [[buf e] r'] eqn:HR.
  rewrite Save_unfold.
  rewrite (putObjectInput_sniff Detect s path r _ buf e r' Hct Hauto HR).
  destruct (ReadFull_spec _ _ _ _ _ HR) as (Hc & Ht & Hlen & He).
  rewrite Hempty in Hc. symmetry in Hc. apply app_eq_nil in Hc as [-> Hc'].
  exists r'. destruct e as [err|].
  - destruct He as (_ & _ & [[-> _] | (_ & _ & Hne)]); [| done].
    assert (bool_decide (terminal r <> ErrUnexpectedEOF)
            && bool_decide (terminal r <> EOF) = false) as ->.
    { destruct Hterm as [-> | ->].
      - by rewrite (bool_decide_eq_false_2 (EOF <> EOF)), andb_false_r by auto.
      - by rewrite (bool_decide_eq_false_2
                      (ErrUnexpectedEOF <> ErrUnexpectedEOF)) by auto. }
    done.
  - cbn in He. unfold sniffLen in He. lia.
Qed.

(** C10: the resolved [SaveOptions] is the zero value with the options
    applied in list order, so a later option overrides an earlier one:
    after [WithContentType ct], followed only by options that leave the
    content type alone, the content type is [ct], whatever came before;
    [WithContentType a] followed by [WithContentType b] resolves to [b],
    and [b], when not empty, is the content type [Save] attaches. *)
Theorem resolveOptions_in_order :
  resolveOptions [] = {| ContentType := ""; AutoContentType := false |} /\
  (forall opts o, resolveOptions (opts ++ [o]) = o (resolveOptions opts)) /\
  (forall before after ct,
     Forall (fun o : SaveOption =>
               forall x, ContentType (o x) = ContentType x) after ->
     ContentType (resolveOptions (before ++ WithContentType ct :: after)) = ct) /\
  (forall before after,
     Forall (fun o : SaveOption =>
               forall x, AutoContentType x = true -> AutoContentType (o x) = true)
            after ->
     AutoContentType (resolveOptions (before ++ WithAutoContentType :: after))
       = true) /\
  (forall a b,
     ContentType (resolveOptions [WithContentType a; WithContentType b]) = b) /\
  (forall W Detect (s : S3Storage W) path r a b, b <> "" ->
     putObjectInput Detect s path r
       (resolveOptions [WithContentType a; WithContentType b]) =
     inr {| put_Bucket := Bucket s; put_Key := path; put_Body := r;
            put_ContentType := Some b |}).
Proof.
  split; [done |]. split; [apply resolveOptions_snoc |].
  split; [| split; [| split]].
  - intros before after ct Hall.
    replace (before ++ WithContentType ct :: after)
      with ((before ++ [WithContentType ct]) ++ after)
      by (by rewrite <- app_assoc).
    apply (resolveOptions_app_preserved
             (fun o => forall x, ContentType (o x) = ContentType x)
             (fun x => ContentType x = ct)); [| done |].
    + intros o x Ho Hx. by rewrite Ho.
    + by rewrite resolveOptions_snoc.
  - intros before after Hall.
    replace (before ++ WithAutoContentType :: after)
      with ((before ++ [WithAutoContentType]) ++ after)
      by (by rewrite <- app_assoc).
    apply (resolveOptions_app_preserved
             (fun o => forall x, AutoContentType x = true ->
                                 AutoContentType (o x) = true)
             (fun x => AutoContentType x = true)); [| done |].
    + intros o x Ho Hx. by apply Ho.
    + by rewrite resolveOptions_snoc.
  - done.
  - intros W Detect s path r a b Hb.
    rewrite putObjectInput_plain by (left; exact Hb).
    cbn. by rewrite bool_decide_eq_true_2.
Qed.

(** ** Error translation *)

Lemma Wrapped_reaches text cause : reaches (Wrapped text cause) cause.
Proof.
  repeat split.
  - apply Is_Wrapped, Is_refl.
  - intros target. apply Is_Wrapped.
  - done.
  - done.
  - done.
Qed.

Lemma append_empty_r (a : string) : a +:+ "" = a.
Proof.
  induction a as [|x a IH]; [done |].
  change (String x (a +:+ "") = String x a). by rewrite IH.
Qed.

(** The text [fmt.Errorf] builds in the read, existence and delete paths
    names the key, then the container, and ends with the cause. *)
Lemma wrapped_genericFailure verb between container key cause :
  genericFailure container key cause
    (Wrapped (verb +:+ key +:+ between +:+ container +:+ ": " +:+ Error cause)
             cause).
Proof.
  split; [done |]. split; [| split; [| split]].
  - exists (verb +:+ key +:+ between), (": " +:+ Error cause).
    cbn [Error]. by rewrite !append_assoc.
  - by exists verb, (between +:+ container +:+ ": " +:+ Error cause).
  - exists (verb +:+ key +:+ between +:+ container +:+ ": "), "".
    cbn [Error]. by rewrite !append_assoc, append_empty_r.
  - apply Wrapped_reaches.
Qed.

(** C3: when the error of the backend is, or wraps, a "no such key" error,
    [Open] and [Download] return [ErrNotFound]; for every other error of
    the backend they return a generic failure whose text names the
    container and the key and that wraps the error of the backend, which
    [errors.Is] and [errors.As] still reach. *)
Theorem Open_Download_error_translation {W WriterAt}
    (Dl : Downloader.t W -> WriterAt -> GetObjectInput -> W ->
          (WriterAt * option error) * W)
    (s : S3Storage W) path err :
  (forall w w',
     GetObject (client s) {| get_Bucket := Bucket s; get_Key := path |} w
       = (inl err, w') ->
     exists e, Open s path w = (inl e, w') /\
       match As_NoSuchKey err with
       | Some _ => e = ErrNotFound
       | None => genericFailure (Bucket s) path err e
       end) /\
  (forall sink w sink' w',
     Dl (downloader s) sink {| get_Bucket := Bucket s; get_Key := path |} w
       = (sink', Some err, w') ->
     exists e, Download Dl s path sink w = (sink', Some e, w') /\
       match As_NoSuchKey err with
       | Some _ => e = ErrNotFound
       | None => genericFailure (Bucket s) path err e
       end).
Proof.
  split.
  - intros w w' H. unfold Open. rewrite H.
    destruct (As_NoSuchKey err); eexists; (split; [reflexivity |]); [done |].
    apply (wrapped_genericFailure "failed to open " " from ").
  - intros sink w sink' w' H. unfold Download. rewrite H.
    destruct (As_NoSuchKey err); eexists; (split; [reflexivity |]); [done |].
    apply (wrapped_genericFailure "failed to download " " from ").
Qed.

(** C4: [Exists] returns [(true, nil)] when the head call succeeds,
    [(false, nil)] when the error of the head call is, or wraps, a "not
    found" error, and [false] with an error that wraps the error of the
    backend in every other case. *)
Theorem Exists_translation {W} (s : S3Storage W) path w res w' :
  HeadObject (client s) {| head_Bucket := Bucket s; head_Key := path |} w
    = (res, w') ->
  match res with
  | None => Exists s path w = (true, None, w')
  | Some err =>
      match As_NotFound err with
      | Some _ => Exists s path w = (false, None, w')
      | None =>
          exists e, Exists s path w = (false, Some e, w') /\
                    genericFailure (Bucket s) path err e
      end
  end.
Proof.
  intros H. unfold Exists. rewrite H.
  destruct res as [err|]; [| done].
  destruct (As_NotFound err); [done |].
  eexists; split; [reflexivity |].
  apply (wrapped_genericFailure "failed to check existence of " " in ").
Qed.

(** [Delete] has a single translation for the errors of the backend. *)
Lemma Delete_translation {W} (s : S3Storage W) path w res w' :
  DeleteObject (client s) {| del_Bucket := Bucket s; del_Key := path |} w
    = (res, w') ->
  Delete s path w =
    ((fun err => Wrapped ("couldn't delete file " +:+ path +:+ " from "
                          +:+ Bucket s +:+ ": " +:+ Error err) err) <$> res,
     w').
Proof. intros H. unfold Delete. rewrite H. by destruct res. Qed.

(** C8, as the code has it: [Delete] returns nil when the delete call
    succeeds, and for every error of the backend, a "no such key" error
    included, a generic failure whose text names the key and the container
    and that wraps the error of the backend; the result is never
    [ErrNotFound] itself, and a "no such key" cause stays within reach of
    [errors.As]. *)
Theorem Delete_wraps_every_failure {W} (s : S3Storage W) path w res w' :
  DeleteObject (client s) {| del_Bucket := Bucket s; del_Key := path |} w
    = (res, w') ->
  match res with
  | None => Delete s path w = (None, w')
  | Some err =>
      exists e, Delete s path w = (Some e, w') /\ e <> ErrNotFound /\
                genericFailure (Bucket s) path err e
  end.
Proof.
  intros H. rewrite (Delete_translation s path w res w' H).
  destruct res as [err|]; [| done].
  eexists; split; [reflexivity |]. split; [done |].
  apply (wrapped_genericFailure "couldn't delete file " " from ").
Qed.

(** C8 fails as stated: on a backend whose delete call answers "no such
    key", [Delete] does not return [ErrNotFound]; [errors.Is] does not find
    [ErrNotFound] in what it returns either. *)
Lemma Delete_no_such_key_is_not_ErrNotFound :
  let s : S3Storage unit :=
    Fixtures.failingStorage (MemS3.noSuchKey "DeleteObject") in
  let res := (DeleteObject (client s)
                {| del_Bucket := Bucket s; del_Key := "a/b.txt" |} tt).1 in
  res = Some (MemS3.noSuchKey "DeleteObject") /\
  (exists m, As_NoSuchKey (MemS3.noSuchKey "DeleteObject") = Some m) /\
  (Delete s "a/b.txt" tt).1 <> Some ErrNotFound /\
  (forall e, (Delete s "a/b.txt" tt).1 = Some e -> Is e ErrNotFound = false).
Proof.
  cbn. repeat split; [by eexists | done |].
  intros e [= <-]. by vm_compute.
Qed.

(** ** Construction *)

(** Whatever the configuration, a storage that [NewS3Storage] returns
    transfers in parts of 5 MiB with one worker. *)
Lemma NewS3Storage_settings {W AwsConfig}
    (load : list LoadOption -> error + AwsConfig)
    (new : AwsConfig -> Client W) cfg (s : S3Storage W) :
  NewS3Storage load new cfg = inr s ->
  Bucket s = cfg_Bucket cfg /\
  Uploader.PartSize (uploader s) = (5 * 1024 * 1024)%Z /\
  Uploader.Concurrency (uploader s) = 1%Z /\
  Downloader.PartSize (downloader s) = (5 * 1024 * 1024)%Z /\
  Downloader.Concurrency (downloader s) = 1%Z /\
  Uploader.S3 (uploader s) = client s /\
  Downloader.S3 (downloader s) = client s.
Proof.
  unfold NewS3Storage. destruct (load _) as [err | s3cfg]; [done |].
  intros [= <-]. done.
Qed.

(** C9, as the code has it: the part size and the worker concurrency are
    not taken from the configuration. For every configuration, and
    whatever the SDK loads from it, a storage that [NewS3Storage] returns
    uploads and downloads in parts of 5 MiB with one worker. *)
Theorem NewS3Storage_fixed_transfer_settings {W AwsConfig}
    (load : list LoadOption -> error + AwsConfig)
    (new : AwsConfig -> Client W) cfg (s : S3Storage W) :
  NewS3Storage load new cfg = inr s ->
  Uploader.PartSize (uploader s) = 5242880%Z /\
  Uploader.Concurrency (uploader s) = 1%Z /\
  Downloader.PartSize (downloader s) = 5242880%Z /\
  Downloader.Concurrency (downloader s) = 1%Z.
Proof.
  intros H.
  destruct (NewS3Storage_settings load new cfg s H)
    as (_ & H1 & H2 & H3 & H4 & _).
  done.
Qed.

(** C9 fails as stated: no configuration makes [NewS3Storage] return a
    storage with another part size or another concurrency. *)
Lemma NewS3Storage_settings_not_configurable :
  ~ exists (W AwsConfig : Type)
      (load : list LoadOption -> error + AwsConfig)
      (new : AwsConfig -> Client W) (cfg : Config) (s : S3Storage W),
      NewS3Storage load new cfg = inr s /\
      (Uploader.PartSize (uploader s) <> 5242880%Z \/
       Uploader.Concurrency (uploader s) <> 1%Z \/
       Downloader.PartSize (downloader s) <> 5242880%Z \/
       Downloader.Concurrency (downloader s) <> 1%Z).
Proof.
  intros (W & A & load & new & cfg & s & H & Hne).
  destruct (NewS3Storage_settings load new cfg s H)
    as (_ & H1 & H2 & H3 & H4 & _).
  destruct Hne as [Hne | [Hne | [Hne | Hne]]]; by apply Hne.
Qed.

(** ** The transfer pipeline over the object store *)

Lemma concat_split_parts fuel : forall ps bs,
  (0 < ps)%N -> length bs <= fuel ->
  concat (Pipeline.split_parts fuel ps bs) = bs.
Proof.
  induction fuel as [|fuel IH]; intros ps bs Hps Hf.
  - destruct bs; [done | cbn in Hf; lia].
  - destruct bs as [|b bs]; [done |].
    cbn -[N.leb take drop length].
    destruct (N.leb_spec (N.of_nat (length (b :: bs))) ps) as [Hle | Hgt].
    + cbn. by rewrite app_nil_r.
    + cbn -[take drop length]. rewrite IH; [apply take_drop | done |].
      rewrite length_drop. cbn [length] in *. lia.
Qed.

Lemma reassemble_insert_lt count : forall (staged : gmap N bytes) i j p,
  (i < j)%N ->
  Pipeline.reassemble (<[i := p]> staged) j count
  = Pipeline.reassemble staged j count.
Proof.
  induction count as [|count IH]; intros staged i j p Hij; [done |].
  cbn. rewrite lookup_insert_ne by lia. by rewrite IH by lia.
Qed.

(** The parts come back in their order at the reassembly. *)
Lemma reassemble_stage parts : forall i,
  Pipeline.reassemble (Pipeline.stage (Pipeline.number i parts)) i (length parts)
  = concat parts.
Proof.
  unfold Pipeline.stage.
  induction parts as [|p parts IH]; intros i; [done |].
  cbn. rewrite lookup_insert_eq. cbn.
  by rewrite reassemble_insert_lt, IH by lia.
Qed.

(** The order in which the workers deliver the numbered parts does not
    matter. *)
Lemma stage_Permutation parts i (delivered : list (N * bytes)) :
  delivered ≡ₚ Pipeline.number i parts ->
  Pipeline.stage delivered = Pipeline.stage (Pipeline.number i parts).
Proof.
  intros HP. unfold Pipeline.stage.
  apply list_to_map_proper; [| done].
  rewrite HP. clear.
  revert i. induction parts as [|p parts IH]; intros i; cbn; [constructor |].
  constructor; [| apply IH].
  assert (forall k j, (j < k)%N -> j ∉ (Pipeline.number k parts).*1) as Hfresh.
  { clear. induction parts as [|q parts IH]; intros k j Hjk; cbn.
    - apply not_elem_of_nil.
    - apply not_elem_of_cons. split; [lia |]. apply IH. lia. }
  apply Hfresh. lia.
Qed.

(** The upload over the object store: a source that ends by [EOF] is
    committed whole under its key, and any other end aborts the upload with
    the store unchanged. *)
Lemma Upload_MemS3 (u : Uploader.t MemS3.store) (input : PutObjectInput)
    (st : MemS3.store) :
  Uploader.S3 u = MemS3.client ->
  (0 < Uploader.PartSize u)%Z ->
  Pipeline.Upload u input st =
    match terminal (put_Body input) with
    | EOF =>
        (None, <[(put_Bucket input, put_Key input) :=
                   {| MemS3.data := contents (put_Body input);
                      MemS3.contentType := put_ContentType input |}]> st)
    | err =>
        (Some (Wrapped ("read upload data failed: " +:+ Error err) err), st)
    end.
Proof.
  intros HS Hps. unfold Pipeline.Upload.
  rewrite ReadAll_spec by lia. rewrite HS.
  destruct (terminal (put_Body input)); try done.
  cbn. by rewrite reassemble_stage, concat_split_parts by lia.
Qed.

(** [WriteAt] changes the offsets of the written range, and only these. *)
Lemma lookup_WriteAt p : forall (w : gmap N Byte.byte) off i,
  Pipeline.WriteAt w p off !! i =
    if decide (off <= i < off + N.of_nat (length p))%N
    then p !! N.to_nat (i - off) else w !! i.
Proof.
  induction p as [|b p IH]; intros w off i; cbn [Pipeline.WriteAt length].
  - case_decide; [lia | done].
  - rewrite IH. repeat case_decide; try lia.
    + replace (N.to_nat (i - off)) with (S (N.to_nat (i - N.succ off))) by lia.
      done.
    + assert (i = off) as -> by lia.
      rewrite lookup_insert_eq, N.sub_diag. done.
    + rewrite lookup_insert_ne by lia. done.
Qed.

Lemma range_take_drop bs off len :
  MemS3.range bs off len = take (N.to_nat len) (drop (N.to_nat off) bs).
Proof.
  unfold MemS3.range.
  destruct (N.leb_spec (N.of_nat (length bs)) off) as [H1 | H1].
  - rewrite drop_ge by lia. rewrite take_nil. by case_match.
  - destruct (N.leb_spec (N.of_nat (length (drop (N.to_nat off) bs))) len)
      as [H2 | H2]; [| done].
    by rewrite take_ge by lia.
Qed.

(** The part workers over the object store: fetching enough parts from
    [pos] on writes the object from [pos] to its end, each byte at its
    offset, and nothing else. *)
Lemma fetch_MemS3 (n : nat) : forall (d : Downloader.t MemS3.store)
    (input : GetObjectInput) (ps pos : N)
    (dst : gmap N Byte.byte) (st : MemS3.store) (o : MemS3.object),
  Downloader.S3 d = MemS3.client ->
  st !! (get_Bucket input, get_Key input) = Some o ->
  (N.of_nat (length (MemS3.data o)) <= pos + N.of_nat n * ps)%N ->
  exists dst',
    Pipeline.fetch n d input ps pos dst st = (dst', None, st) /\
    forall i : N,
      dst' !! i =
        if decide (pos <= i < N.of_nat (length (MemS3.data o)))%N
        then MemS3.data o !! N.to_nat i else dst !! i.
Proof.
  induction n as [|n IH]; intros d input ps pos dst st o HS Hst Hlen.
  - exists dst. split; [done |]. intros i. case_decide; [lia | done].
  - cbn [Pipeline.fetch]. rewrite HS. cbn [GetObjectRange MemS3.client].
    rewrite Hst.
    destruct (IH d input ps (pos + ps)%N
                (Pipeline.WriteAt dst (MemS3.range (MemS3.data o) pos ps) pos)
                st o HS Hst) as (dst' & Hfetch & Hdst'); [lia |].
    exists dst'. split; [done |]. intros i.
    rewrite Hdst', lookup_WriteAt, range_take_drop, length_take, length_drop.
    repeat case_decide; try lia; try done.
    rewrite lookup_take_lt, lookup_drop by lia.
    f_equal. lia.
Qed.

(** The sink-mode download over the object store: a stored object is
    written whole, each byte at its offset, and the rest of the sink is
    left as it was; a missing object is reported as "no such key" with the
    sink untouched. *)
Lemma Download_MemS3 (d : Downloader.t MemS3.store) (input : GetObjectInput)
    (dst : gmap N Byte.byte) (st : MemS3.store) :
  Downloader.S3 d = MemS3.client ->
  (0 < Downloader.PartSize d)%Z ->
  match st !! (get_Bucket input, get_Key input) with
  | Some o =>
      exists dst',
        Pipeline.Download d dst input st = (dst', None, st) /\
        forall i : N,
          dst' !! i =
            if decide (i < N.of_nat (length (MemS3.data o)))%N
            then MemS3.data o !! N.to_nat i else dst !! i
  | None =>
      Pipeline.Download d dst input st
      = (dst, Some (MemS3.noSuchKey "GetObject"), st)
  end.
Proof.
  intros HS Hps.
  destruct (st !! (get_Bucket input, get_Key input)) as [o|] eqn:Hst.
  - set (ps := Z.to_N (Downloader.PartSize d)).
    set (len := N.of_nat (length (MemS3.data o))).
    destruct (fetch_MemS3 (S (N.to_nat ((len - 1) / ps))) d input ps 0%N
                dst st o HS Hst) as (dst' & Hfetch & Hdst').
    { fold len. assert (0 < ps)%N as Hps' by (unfold ps; lia).
      pose proof (N.div_mod' (len - 1) ps) as Hdm.
      pose proof (N.mod_lt (len - 1) ps ltac:(lia)) as Hm.
      rewrite Nat2N.inj_succ, N2Nat.id, N.mul_succ_l. lia. }
    exists dst'. split.
    + rewrite <- Hfetch. unfold Pipeline.Download.
      cbn [Pipeline.fetch]. fold ps. rewrite HS.
      cbn [GetObjectRange MemS3.client]. by rewrite Hst.
    + intros i. rewrite Hdst'. fold len. repeat case_decide; try lia; done.
  - unfold Pipeline.Download. rewrite HS.
    cbn [GetObjectRange MemS3.client]. by rewrite Hst.
Qed.

(** The upload input of [Save] names the object of the storage and carries
    the stream of the source, with or without sniffing. *)
Lemma putObjectInput_stream {W} Detect (s : S3Storage W) path r options input :
  putObjectInput Detect s path r options = inr input ->
  put_Bucket input = Bucket s /\ put_Key input = path /\
  contents (put_Body input) = contents r /\
  terminal (put_Body input) = terminal r.
Proof.
  destruct (decide (ContentType options = "")) as [Hct | Hct];
    [destruct (AutoContentType options) eqn:Hauto |].
  - destruct (ReadFull r sniffLen) as [[buf e] r'] eqn:HR.
    rewrite (putObjectInput_sniff Detect s path r _ buf e r' Hct Hauto HR).
    destruct (ReadFull_spec _ _ _ _ _ HR) as (Hc & Ht & _).
    destruct (sniffed_body buf r r' Hc Ht) as [Hbc Hbt].
    destruct e as [err|];
      [destruct (bool_decide (err <> ErrUnexpectedEOF) && bool_decide (err <> EOF)) |];
      intros Heq; simplify_eq; cbn; done.
  - rewrite putObjectInput_plain by auto. intros H. by simplify_eq.
  - rewrite putObjectInput_plain by auto. intros H. by simplify_eq.
Qed.

(** A source that ends by exhaustion gets past the sniffing step. *)
Lemma putObjectInput_exhausted {W} Detect (s : S3Storage W) path r options :
  terminal r = EOF \/ terminal r = ErrUnexpectedEOF ->
  exists input, putObjectInput Detect s path r options = inr input.
Proof.
  intros Hterm.
  destruct (decide (ContentType options = "")) as [Hct | Hct];
    [destruct (AutoContentType options) eqn:Hauto |].
  - destruct (ReadFull r sniffLen) as [[buf e] r'] eqn:HR.
    rewrite (putObjectInput_sniff Detect s path r _ buf e r' Hct Hauto HR).
    destruct (ReadFull_spec _ _ _ _ _ HR) as (_ & _ & _ & He).
    destruct e as [err|]; [| by eexists].
    assert (err = EOF \/ err = ErrUnexpectedEOF) as Herr.
    { destruct He as (_ & _ & [[-> _] | [-> _]]); [done | by right]. }
    assert (bool_decide (err <> ErrUnexpectedEOF) && bool_decide (err <> EOF)
            = false) as ->; [| by eexists].
    destruct Herr as [-> | ->].
    + by rewrite (bool_decide_eq_false_2 (EOF <> EOF)), andb_false_r by auto.
    + by rewrite (bool_decide_eq_false_2
                    (ErrUnexpectedEOF <> ErrUnexpectedEOF)) by auto.
  - rewrite putObjectInput_plain by auto. by eexists.
  - rewrite putObjectInput_plain by auto. by eexists.
Qed.

(** C2: on a storage whose transfer managers run over the object store
    with parts of any positive size, a [Save] of a source that ends by
    [EOF] succeeds, and after a successful [Save] of a source with contents
    [bs], a [Download] of the same key succeeds, leaves the store as it is,
    and the sink holds [bs], byte [i] at offset [i], and beyond the length
    of [bs] what it held before. This is so for every key, for every length
    of [bs] (zero, below, at and above the part size) and for every choice
    of options. *)
Theorem Save_Download_round_trip (Detect : bytes -> string)
    (s : S3Storage MemS3.store) (key : string) (r : Reader)
    (opts : list SaveOption) (st : MemS3.store) :
  Uploader.S3 (uploader s) = MemS3.client ->
  Downloader.S3 (downloader s) = MemS3.client ->
  (0 < Uploader.PartSize (uploader s))%Z ->
  (0 < Downloader.PartSize (downloader s))%Z ->
  (terminal r = EOF ->
     exists st', Save Detect Pipeline.Upload s key r opts st = (None, st')) /\
  (forall st',
     Save Detect Pipeline.Upload s key r opts st = (None, st') ->
     forall dst : gmap N Byte.byte,
     exists dst',
       Download Pipeline.Download s key dst st' = (dst', None, st') /\
       forall i : N,
         dst' !! i =
           if decide (i < N.of_nat (length (contents r)))%N
           then contents r !! N.to_nat i else dst !! i).
Proof.
  intros HU HD HpU HpD. split.
  - intros Hterm.
    destruct (putObjectInput_exhausted Detect s key r (resolveOptions opts)
                (or_introl Hterm)) as [input Hin].
    destruct (putObjectInput_stream _ _ _ _ _ _ Hin) as (_ & _ & _ & Ht).
    rewrite Save_unfold, Hin, Upload_MemS3 by done.
    rewrite Ht, Hterm. by eexists.
  - intros st' HS dst.
    rewrite Save_unfold in HS.
    destruct (putObjectInput Detect s key r (resolveOptions opts))
      as [e | input] eqn:Hin; [done |].
    destruct (putObjectInput_stream _ _ _ _ _ _ Hin) as (Hb & Hk & Hc & Ht).
    rewrite Upload_MemS3, Hb, Hk, Hc in HS by done.
    destruct (terminal (put_Body input)); try done.
    injection HS as <-.
    pose proof (Download_MemS3 (downloader s)
                  {| get_Bucket := Bucket s; get_Key := key |} dst
                  (<[(Bucket s, key) :=
                       {| MemS3.data := contents r;
                          MemS3.contentType := put_ContentType input |}]> st)
                  HD HpD) as HDl.
    cbn [get_Bucket get_Key] in HDl. rewrite lookup_insert_eq in HDl.
    destruct HDl as (dst' & HDl & Hdst').
    exists dst'. split; [| exact Hdst'].
    unfold Download. by rewrite HDl.
Qed.

(** The storage [NewS3Storage] builds over the object store is such a
    storage. *)
Lemma NewS3Storage_MemS3 {AwsConfig : Type}
    (load : list LoadOption -> error + AwsConfig) (cfg : Config)
    (s : S3Storage MemS3.store) :
  NewS3Storage load (fun _ => MemS3.client) cfg = inr s ->
  Uploader.S3 (uploader s) = MemS3.client /\
  Downloader.S3 (downloader s) = MemS3.client /\
  (0 < Uploader.PartSize (uploader s))%Z /\
  (0 < Downloader.PartSize (downloader s))%Z.
Proof.
  unfold NewS3Storage. destruct (load _) as [err | s3cfg]; [done |].
  intros [= <-]. done.
Qed.

(** ** Further properties of the package *)

(** When the uploader fails, [Save] returns an error that wraps the error
    of the uploader and whose text names the container and the key; when
    [errors.As] finds an API error in it, the text carries its code and its
    message as well. The backend is left as the uploader left it. *)
Theorem Save_upload_failure {W} Detect
    (Upload : Uploader.t W -> PutObjectInput -> W -> option error * W)
    (s : S3Storage W) path r opts w input err w' :
  putObjectInput Detect s path r (resolveOptions opts) = inr input ->
  Upload (uploader s) input w = (Some err, w') ->
  exists e,
    Save Detect Upload s path r opts w = (Some e, w') /\
    Unwrap e = Some err /\ reaches e err /\
    mentions (Error e) (Bucket s) /\ mentions (Error e) path /\
    match As_APIError err with
    | Some (code, message) =>
        mentions (Error e) code /\ mentions (Error e) message
    | None => True
    end.
Proof.
  intros Hin Hup. rewrite Save_unfold, Hin, Hup. cbn.
  eexists; split; [reflexivity |]. unfold uploadError.
  destruct (As_APIError err) as [[code message]|];
    (split; [done |]); (split; [apply Wrapped_reaches |]); cbn [Error].
  - split; [by eexists "s3 upload failed for bucket ", _ |].
    split; [| split].
    + exists ("s3 upload failed for bucket " +:+ Bucket s +:+ ", key "),
             (": " +:+ message +:+ " (AWS code: " +:+ code +:+ "): "
              +:+ Error err).
      by rewrite !append_assoc.
    + exists ("s3 upload failed for bucket " +:+ Bucket s +:+ ", key "
              +:+ path +:+ ": " +:+ message +:+ " (AWS code: "),
             ("): " +:+ Error err).
      by rewrite !append_assoc.
    + exists ("s3 upload failed for bucket " +:+ Bucket s +:+ ", key "
              +:+ path +:+ ": "),
             (" (AWS code: " +:+ code +:+ "): " +:+ Error err).
      by rewrite !append_assoc.
  - split; [| split; [| done]].
    + exists ("couldn't upload file " +:+ path +:+ " to "),
             (": " +:+ Error err).
      by rewrite !append_assoc.
    + by eexists "couldn't upload file ", _.
Qed.


(** ** Runs of the model *)

Example ReadFull_short_stream :
  ReadFull (Source [Fixtures.hello] EOF) sniffLen
  = (Fixtures.hello, Some ErrUnexpectedEOF, Source [] EOF).
Proof. vm_compute. reflexivity. Qed.

Example ReadFull_empty_stream :
  ReadFull (Source [] EOF) sniffLen = ([], Some EOF, Source [] EOF).
Proof. vm_compute. reflexivity. Qed.

Example ReadFull_across_reads :
  ReadFull (Source [take 3 Fixtures.hello; []; drop 3 Fixtures.hello] EOF) 5
  = (take 5 Fixtures.hello, None, Source [drop 5 Fixtures.hello] EOF).
Proof. vm_compute. reflexivity. Qed.

Example ReadFull_broken_stream :
  ReadFull Fixtures.broken sniffLen
  = (Fixtures.hello, Some (Opaque "connection reset"),
     Source [] (Opaque "connection reset")).
Proof. vm_compute. reflexivity. Qed.

Example MultiReader_drains_in_order :
  ReadAll (MultiReader (BytesReader (take 5 Fixtures.hello))
                       (Source [drop 5 Fixtures.hello] EOF)) 4
  = (Fixtures.hello, Some EOF).
Proof. vm_compute. reflexivity. Qed.

Example split_parts_hello :
  Pipeline.split_parts 11 4 Fixtures.hello
  = [take 4 Fixtures.hello; take 4 (drop 4 Fixtures.hello);
     drop 8 Fixtures.hello].
Proof. vm_compute. reflexivity. Qed.

(** The scenario of the design document: "hello world" saved with
    AutoContentType under "a/b.txt" is stored whole with the detected
    content type; [Open] returns a stream with exactly these bytes and
    [Exists] answers true; after [Delete], [Exists] answers false and
    [Open] and [Download] return [ErrNotFound]. *)
Example hello_world_scenario :
  let '(err, st) :=
    Save Fixtures.detect Pipeline.Upload Fixtures.storage "a/b.txt"
         (Source [Fixtures.hello] EOF) [WithAutoContentType] ∅ in
  let '(gone, st') := Delete Fixtures.storage "a/b.txt" st in
  err = None /\
  st !! ("bucket", "a/b.txt")
    = Some {| MemS3.data := Fixtures.hello;
              MemS3.contentType := Some "text/plain; charset=utf-8" |} /\
  (Open Fixtures.storage "a/b.txt" st).1 = inr (BytesReader Fixtures.hello) /\
  (Exists Fixtures.storage "a/b.txt" st).1 = (true, None) /\
  gone = None /\
  (Exists Fixtures.storage "a/b.txt" st').1 = (false, None) /\
  (Open Fixtures.storage "a/b.txt" st').1 = inl ErrNotFound /\
  (Download Pipeline.Download Fixtures.storage "a/b.txt" ∅ st').1
    = (∅, Some ErrNotFound).
Proof. vm_compute. repeat split. Qed.

(** ** The theorems at concrete inputs *)

Lemma Save_sniff_preserves_stream_witness :
  exists input,
    putObjectInput Fixtures.detect Fixtures.storage "a/b.txt"
      (Source [Fixtures.hello] EOF) (resolveOptions [WithAutoContentType])
    = inr input /\
    contents (put_Body input) = Fixtures.hello.
Proof.
  pose proof (Save_sniff_preserves_stream Fixtures.detect Pipeline.Upload
                Fixtures.storage "a/b.txt" (Source [Fixtures.hello] EOF)
                [WithAutoContentType] eq_refl eq_refl) as H.
  destruct (putObjectInput Fixtures.detect Fixtures.storage "a/b.txt"
              (Source [Fixtures.hello] EOF)
              (resolveOptions [WithAutoContentType])) as [e | input].
  - destruct H as [H _]. exfalso. apply H. reflexivity.
  - exists input. split; [reflexivity |].
    destruct H as (_ & _ & Hc & _). rewrite Hc. vm_compute. reflexivity.
Defined.

Lemma Save_Download_round_trip_witness :
  exists st' dst',
    Save Fixtures.detect Pipeline.Upload Fixtures.smallParts "a/b.txt"
      (Source [take 3 Fixtures.hello; drop 3 Fixtures.hello] EOF)
      [WithAutoContentType] ∅ = (None, st') /\
    Download Pipeline.Download Fixtures.smallParts "a/b.txt" ∅ st'
      = (dst', None, st') /\
    dst' !! 4%N = Some Byte.x6f /\ dst' !! 11%N = None.
Proof.
  destruct (Save_Download_round_trip Fixtures.detect Fixtures.smallParts
              "a/b.txt"
              (Source [take 3 Fixtures.hello; drop 3 Fixtures.hello] EOF)
              [WithAutoContentType] ∅ eq_refl eq_refl eq_refl eq_refl)
    as [H1 H2].
  destruct (H1 eq_refl) as [st' Hs].
  destruct (H2 st' Hs ∅) as (dst' & Hd & Hl).
  exists st', dst'. split; [exact Hs |]. split; [exact Hd |].
  rewrite !Hl. split; vm_compute; reflexivity.
Defined.

Lemma Open_Download_error_translation_witness :
  exists e,
    Open (Fixtures.failingStorage (W := unit) (MemS3.noSuchKey "GetObject"))
         "a/b.txt" tt = (inl e, tt) /\
    e = ErrNotFound.
Proof.
  destruct (proj1 (Open_Download_error_translation
                     (WriterAt := gmap N Byte.byte) Pipeline.Download
                     (Fixtures.failingStorage (MemS3.noSuchKey "GetObject"))
                     "a/b.txt" (MemS3.noSuchKey "GetObject"))
                  tt tt eq_refl) as (e & H1 & H2).
  exists e. split; [exact H1 | exact H2].
Defined.

Lemma Exists_translation_witness :
  Exists Fixtures.storage "missing" ∅ = (false, None, ∅).
Proof.
  exact (Exists_translation Fixtures.storage "missing" ∅
           (Some (MemS3.notFound "HeadObject")) ∅ eq_refl).
Defined.

Lemma Save_sniff_read_failure_witness :
  Save Fixtures.detect Fixtures.recordUpload
       (Fixtures.failingStorage Fixtures.accessDenied) "a/b.txt"
       Fixtures.broken [WithAutoContentType] []
  = (Some (Wrapped
             "failed to read file header for content-type detection: connection reset"
             (Opaque "connection reset")), []).
Proof.
  refine (proj1 (Save_sniff_read_failure Fixtures.detect Fixtures.recordUpload
                   (Fixtures.failingStorage Fixtures.accessDenied) "a/b.txt"
                   Fixtures.broken [WithAutoContentType] []
                   Fixtures.hello (Some (Opaque "connection reset"))
                   (Source [] (Opaque "connection reset"))
                   eq_refl eq_refl _)
                (Opaque "connection reset") eq_refl _ _).
  - vm_compute. reflexivity.
  - discriminate.
  - discriminate.
Defined.

Lemma Save_explicit_content_type_witness :
  putObjectInput Fixtures.detect Fixtures.storage "logo.png"
    (Source [Fixtures.hello] EOF)
    (resolveOptions [WithAutoContentType; WithContentType "image/png"])
  = inr {| put_Bucket := "bucket"; put_Key := "logo.png";
           put_Body := Source [Fixtures.hello] EOF;
           put_ContentType := Some "image/png" |}.
Proof.
  refine (proj1 (Save_explicit_content_type Fixtures.detect Pipeline.Upload
                   Fixtures.storage "logo.png" (Source [Fixtures.hello] EOF)
                   [WithAutoContentType; WithContentType "image/png"] ∅ _)).
  vm_compute. discriminate.
Defined.

Lemma Save_empty_stream_witness :
  exists r',
    putObjectInput Fixtures.detect Fixtures.storage "empty" (Source [] EOF)
      (resolveOptions [WithAutoContentType])
    = inr {| put_Bucket := "bucket"; put_Key := "empty"; put_Body := r';
             put_ContentType := None |} /\
    contents r' = [].
Proof.
  destruct (Save_empty_stream Fixtures.detect Pipeline.Upload Fixtures.storage
              "empty" (Source [] EOF) [WithAutoContentType] ∅
              eq_refl eq_refl eq_refl (or_introl eq_refl))
    as (r' & H1 & H2 & _).
  exists r'. split; [exact H1 | exact H2].
Defined.

Lemma Delete_wraps_every_failure_witness :
  exists e,
    Delete (Fixtures.failingStorage (W := unit) (MemS3.noSuchKey "DeleteObject"))
           "a/b.txt" tt = (Some e, tt) /\
    e <> ErrNotFound.
Proof.
  destruct (Delete_wraps_every_failure
              (Fixtures.failingStorage (MemS3.noSuchKey "DeleteObject"))
              "a/b.txt" tt (Some (MemS3.noSuchKey "DeleteObject")) tt eq_refl)
    as (e & H1 & H2 & _).
  exists e. split; [exact H1 | exact H2].
Defined.

Lemma NewS3Storage_fixed_transfer_settings_witness :
  NewS3Storage Fixtures.load (fun _ => MemS3.client) Fixtures.cfg
    = inr Fixtures.storage /\
  Uploader.PartSize (uploader Fixtures.storage) = 5242880%Z /\
  Uploader.Concurrency (uploader Fixtures.storage) = 1%Z /\
  Downloader.PartSize (downloader Fixtures.storage) = 5242880%Z /\
  Downloader.Concurrency (downloader Fixtures.storage) = 1%Z.
Proof.
  split; [reflexivity |].
  exact (NewS3Storage_fixed_transfer_settings Fixtures.load
           (fun _ => MemS3.client) Fixtures.cfg Fixtures.storage eq_refl).
Defined.

Lemma resolveOptions_in_order_witness :
  ContentType
    (resolveOptions [WithContentType "text/plain"; WithAutoContentType;
                     WithContentType "image/png"; WithAutoContentType])
  = "image/png".
Proof.
  destruct resolveOptions_in_order as (_ & _ & H & _).
  apply (H [WithContentType "text/plain"; WithAutoContentType]
           [WithAutoContentType] "image/png").
  repeat constructor.
Defined.

Lemma Save_upload_failure_witness :
  exists e,
    Save Fixtures.detect Pipeline.Upload
         (Fixtures.failingStorage (W := unit) Fixtures.accessDenied)
         "a/b.txt" (Source [Fixtures.hello] EOF) [] tt = (Some e, tt) /\
    Unwrap e = Some Fixtures.accessDenied.
Proof.
  destruct (Save_upload_failure Fixtures.detect Pipeline.Upload
              (Fixtures.failingStorage (W := unit) Fixtures.accessDenied)
              "a/b.txt" (Source [Fixtures.hello] EOF) [] tt
              {| put_Bucket := "bucket"; put_Key := "a/b.txt";
                 put_Body := Source [Fixtures.hello] EOF;
                 put_ContentType := None |}
              Fixtures.accessDenied tt)
    as (e & H1 & H2 & _).
  - reflexivity.
  - vm_compute. reflexivity.
  - exists e. split; [exact H1 | exact H2].
Defined.

(** ** Save, beyond the sniffing claims *)

(** What [io.ReadFull] leaves in the sniffing buffer is the stream up to
    the size of the buffer, and the reader is left at what follows. *)
Lemma ReadFull_take_drop r size buf e r' :
  ReadFull r size = (buf, e, r') ->
  buf = take (N.to_nat size) (contents r) /\
  contents r' = drop (N.to_nat size) (contents r).
Proof.
  intros HR. destruct (ReadFull_spec _ _ _ _ _ HR) as (Hc & _ & Hlen & He).
  rewrite Hc. destruct e as [err|].
  - destruct He as (Hc' & Hlt & _). rewrite Hc', app_nil_r.
    by rewrite take_ge, drop_ge by lia.
  - by rewrite take_app_length', drop_app_length' by lia.
Qed.

(** Without [WithAutoContentType] and without a content type, the default
    among them, [Save] does not sniff, whatever its doc comment says about
    an empty content type: the reader goes to the uploader as it came,
    unread, and no content type is attached. *)
Theorem Save_without_auto_content_type {W} Detect
    (Upload : Uploader.t W -> PutObjectInput -> W -> option error * W)
    (s : S3Storage W) path r opts w :
  AutoContentType (resolveOptions opts) = false ->
  ContentType (resolveOptions opts) = "" ->
  let input := {| put_Bucket := Bucket s; put_Key := path; put_Body := r;
                  put_ContentType := None |} in
  putObjectInput Detect s path r (resolveOptions opts) = inr input /\
  Save Detect Upload s path r opts w =
    (uploadError s path <$> (Upload (uploader s) input w).1,
     (Upload (uploader s) input w).2).
Proof.
  intros Hauto Hct input.
  rewrite Save_unfold, putObjectInput_plain by auto.
  rewrite Hct. by rewrite bool_decide_eq_false_2 by auto.
Qed.

(** When [Save] sniffs a stream that is not empty and reaches the upload,
    the classified bytes are the first 512 bytes of the stream, or all of
    them when there are fewer: the content type attached is what
    [http.DetectContentType] answers on them, and the body of the upload is
    these bytes followed by a reader that holds the stream from byte 512
    on and ends as the source ends. *)
Theorem Save_sniff_classifies_prefix {W} (Detect : bytes -> string)
    (s : S3Storage W) path r opts input :
  ContentType (resolveOptions opts) = "" ->
  AutoContentType (resolveOptions opts) = true ->
  contents r <> [] ->
  putObjectInput Detect s path r (resolveOptions opts) = inr input ->
  let prefix := take (N.to_nat sniffLen) (contents r) in
  put_ContentType input =
    (if bool_decide (Detect prefix <> "") then Some (Detect prefix) else None) /\
  exists rest,
    put_Body input = MultiReader (BytesReader prefix) rest /\
    contents rest = drop (N.to_nat sniffLen) (contents r) /\
    terminal rest = terminal r.
Proof.
  intros Hct Hauto Hne Hin. cbv zeta.
  destruct (ReadFull r sniffLen) as [[buf e] r'] eqn:HR.
  rewrite (putObjectInput_sniff Detect s path r _ buf e r' Hct Hauto HR) in Hin.
  destruct (ReadFull_take_drop _ _ _ _ _ HR) as [Hbuf Hrest].
  destruct (ReadFull_spec _ _ _ _ _ HR) as (Hc & Ht & _).
  rewrite <- Hbuf, <- Hrest. clear Hbuf.
  destruct buf as [|b buf].
  { exfalso. apply Hne. rewrite Hc, Hrest. cbn. rewrite <- Hrest.
    destruct (ReadFull_spec _ _ _ _ _ HR) as (_ & _ & Hlen & He).
    destruct e as [err|]; [by destruct He | done]. }
  assert (inr {| put_Bucket := Bucket s; put_Key := path;
                 put_Body := MultiReader (BytesReader (b :: buf)) r';
                 put_ContentType :=
                   if bool_decide (Detect (b :: buf) <> "")
                   then Some (Detect (b :: buf)) else None |}
          = (inr input : error + PutObjectInput)) as Heq.
  { destruct e as [err|]; [| exact Hin].
    destruct (bool_decide (err <> ErrUnexpectedEOF) && bool_decide (err <> EOF));
      [done | exact Hin]. }
  injection Heq as <-. cbn. split; [done |].
  exists r'. by rewrite Ht.
Qed.

(** [Save] stops before the upload in one case only: sniffing is enabled,
    the stream has fewer than 512 bytes and it ends with an error other
    than [io.EOF] and [io.ErrUnexpectedEOF]. The error returned then wraps
    the error of the stream and the backend is left alone. In particular a
    stream of 512 bytes or more always reaches the upload, however it
    ends. *)
Theorem Save_fails_before_upload_iff {W} Detect
    (Upload : Uploader.t W -> PutObjectInput -> W -> option error * W)
    (s : S3Storage W) path r opts w :
  let sniffFailure :=
    ContentType (resolveOptions opts) = "" /\
    AutoContentType (resolveOptions opts) = true /\
    (N.of_nat (length (contents r)) < sniffLen)%N /\
    terminal r <> EOF /\ terminal r <> ErrUnexpectedEOF in
  match putObjectInput Detect s path r (resolveOptions opts) with
  | inl e =>
      sniffFailure /\
      e = Wrapped ("failed to read file header for content-type detection: "
                   +:+ Error (terminal r)) (terminal r) /\
      Save Detect Upload s path r opts w = (Some e, w)
  | inr _ => ~ sniffFailure
  end.
Proof.
  intros sniffFailure. unfold sniffFailure.
  pose proof (Save_unfold Detect Upload s path r opts w) as HS.
  destruct (decide (ContentType (resolveOptions opts) = "")) as [Hct | Hct];
    [destruct (AutoContentType (resolveOptions opts)) eqn:Hauto |].
  - destruct (ReadFull r sniffLen) as [[buf e] r'] eqn:HR.
    rewrite (putObjectInput_sniff Detect s path r _ buf e r' Hct Hauto HR) in *.
    destruct (ReadFull_spec _ _ _ _ _ HR) as (Hc & Ht & Hlen & He).
    destruct e as [err|].
    + destruct He as (Hc' & Hlt & Herr).
      rewrite Hc, Hc', app_nil_r.
      destruct (bool_decide (err <> ErrUnexpectedEOF) && bool_decide (err <> EOF))
        eqn:Hfail.
      * apply andb_true_iff in Hfail
          as [H1%bool_decide_eq_true H2%bool_decide_eq_true].
        destruct Herr as [[-> _] | [-> _]]; [| done].
        repeat split; done.
      * apply andb_false_iff in Hfail
          as [H1%bool_decide_eq_false | H1%bool_decide_eq_false];
          destruct Herr as [[-> _] | (-> & Hte & _)]; intros (_ & _ & _ & ? & ?);
          done.
    + rewrite Hc, length_app. intros (_ & _ & ? & _). lia.
  - rewrite putObjectInput_plain by auto. intros (_ & ? & _). done.
  - rewrite putObjectInput_plain by auto. intros (? & _). done.
Qed.

(** [Save] returns nil exactly when it reached the upload and the uploader
    returned nil, and the backend is then as the uploader left it: neither
    a sniffing failure nor an upload failure is ever reported as success. *)
Theorem Save_succeeds_iff_upload_succeeds {W} Detect
    (Upload : Uploader.t W -> PutObjectInput -> W -> option error * W)
    (s : S3Storage W) path r opts w w' :
  Save Detect Upload s path r opts w = (None, w') <->
  exists input,
    putObjectInput Detect s path r (resolveOptions opts) = inr input /\
    Upload (uploader s) input w = (None, w').
Proof.
  rewrite Save_unfold.
  destruct (putObjectInput Detect s path r (resolveOptions opts))
    as [e | input].
  - split; [done | by intros (? & ? & _)].
  - destruct (Upload (uploader s) input w) as [[err|] w2] eqn:HU; cbn.
    + split; [done |]. intros (input' & Heq & H).
      injection Heq as <-. rewrite HU in H. done.
    + split.
      * intros [= ->]. by exists input.
      * intros (input' & Heq & H).
        injection Heq as <-. rewrite HU in H. by injection H as ->.
Qed.

(** Whatever the options, the input [Save] hands to the uploader names the
    container of the storage and the key as the caller gave it, and its
    body delivers the bytes of the source and ends as the source ends, read
    in pieces of any size. *)
Theorem Save_keeps_object_and_stream {W} Detect (s : S3Storage W)
    path r opts input :
  putObjectInput Detect s path r (resolveOptions opts) = inr input ->
  put_Bucket input = Bucket s /\ put_Key input = path /\
  contents (put_Body input) = contents r /\
  terminal (put_Body input) = terminal r /\
  forall k, (0 < k)%N -> ReadAll (put_Body input) k = ReadAll r k.
Proof.
  intros Hin.
  destruct (putObjectInput_stream _ _ _ _ _ _ Hin) as (Hb & Hk & Hc & Ht).
  repeat split; [done | done | done | done |].
  intros k Hk'. rewrite !ReadAll_spec by done. by rewrite Hc, Ht.
Qed.

(** [ErrNotFound] and the negative answer of [Exists] mean a missing
    object and nothing else: [Open] and [Download] return [ErrNotFound]
    only when the error of the backend is, or wraps, a "no such key" error,
    [Exists] answers false without error only when the error of the head
    call is, or wraps, a "not found" error, and it answers true only when
    the head call succeeded, never together with an error. *)
Theorem not_found_only_for_missing_object {W WriterAt}
    (Dl : Downloader.t W -> WriterAt -> GetObjectInput -> W ->
          (WriterAt * option error) * W)
    (s : S3Storage W) path :
  (forall w w',
     Open s path w = (inl ErrNotFound, w') ->
     exists err m,
       GetObject (client s) {| get_Bucket := Bucket s; get_Key := path |} w
         = (inl err, w') /\
       As_NoSuchKey err = Some m) /\
  (forall sink w sink' w',
     Download Dl s path sink w = (sink', Some ErrNotFound, w') ->
     exists err m,
       Dl (downloader s) sink {| get_Bucket := Bucket s; get_Key := path |} w
         = (sink', Some err, w') /\
       As_NoSuchKey err = Some m) /\
  (forall w w',
     Exists s path w = (false, None, w') ->
     exists err m,
       HeadObject (client s) {| head_Bucket := Bucket s; head_Key := path |} w
         = (Some err, w') /\
       As_NotFound err = Some m) /\
  (forall w e w',
     Exists s path w = (true, e, w') ->
     e = None /\
     HeadObject (client s) {| head_Bucket := Bucket s; head_Key := path |} w
       = (None, w')).
Proof.
  split; [| split; [| split]].
  - intros w w'. unfold Open.
    destruct (GetObject _ _ _) as [[err | body] w2]; [| done].
    destruct (As_NoSuchKey err) as [m|] eqn:Has; [| done].
    intros [= <-]. by exists err, m.
  - intros sink w sink' w'. unfold Download.
    destruct (Dl _ _ _ _) as [[sink2 [err|]] w2]; [| done].
    destruct (As_NoSuchKey err) as [m|] eqn:Has; [| done].
    intros [= <- <-]. by exists err, m.
  - intros w w'. unfold Exists.
    destruct (HeadObject _ _ _) as [[err|] w2]; [| done].
    destruct (As_NotFound err) as [m|] eqn:Has; [| done].
    intros [= <-]. by exists err, m.
  - intros w e w'. unfold Exists.
    destruct (HeadObject _ _ _) as [[err|] w2].
    + by destruct (As_NotFound err).
    + by intros [= <- <-].
Qed.

(** The two options of the package do not interfere. *)
Lemma WithAutoContentType_not_WithContentType ct :
  WithAutoContentType <> WithContentType ct.
Proof.
  intros Heq.
  by pose proof (f_equal (fun o : SaveOption =>
                   AutoContentType
                     (o {| ContentType := ""; AutoContentType := false |}))
                   Heq).
Qed.

(** For a list made of the options of the package, sniffing is enabled
    exactly when [WithAutoContentType] is in the list, wherever it stands
    and whatever stands around it, and a list without [WithContentType]
    leaves the content type empty. *)
Theorem package_options_resolution (opts : list SaveOption) :
  Forall (fun o : SaveOption =>
            o = WithAutoContentType \/ exists ct, o = WithContentType ct) opts ->
  (AutoContentType (resolveOptions opts) = true <-> WithAutoContentType ∈ opts) /\
  ((forall ct, WithContentType ct ∉ opts) -> ContentType (resolveOptions opts) = "").
Proof.
  induction opts as [|o opts IH] using rev_ind; intros Hall.
  - split; [| done]. split; [done |]. by intros ?%elem_of_nil.
  - apply Forall_app in Hall as [Hall Ho].
    apply Forall_cons in Ho as [Ho _].
    destruct (IH Hall) as [IHa IHc]. rewrite resolveOptions_snoc.
    split.
    + rewrite elem_of_app, list_elem_of_singleton.
      destruct Ho as [-> | [ct ->]]; cbn.
      * split; auto.
      * rewrite IHa. split; [auto |]. intros [? | Heq]; [done |].
        by apply WithAutoContentType_not_WithContentType in Heq.
    + intros Hno.
      assert (forall ct, WithContentType ct ∉ opts) as Hno'.
      { intros ct Hin. apply (Hno ct). apply elem_of_app. by left. }
      destruct Ho as [-> | [ct ->]]; cbn; [by apply IHc |].
      exfalso. apply (Hno ct). apply elem_of_app. right.
      by apply list_elem_of_singleton.
Qed.

Lemma Save_without_auto_content_type_witness :
  putObjectInput Fixtures.detect Fixtures.storage "a/b.txt"
    (Source [Fixtures.hello] EOF) (resolveOptions [])
  = inr {| put_Bucket := "bucket"; put_Key := "a/b.txt";
           put_Body := Source [Fixtures.hello] EOF;
           put_ContentType := None |}.
Proof.
  exact (proj1 (Save_without_auto_content_type Fixtures.detect Pipeline.Upload
                  Fixtures.storage "a/b.txt" (Source [Fixtures.hello] EOF)
                  [] ∅ eq_refl eq_refl)).
Defined.

Lemma Save_sniff_classifies_prefix_witness :
  exists rest,
    MultiReader (BytesReader Fixtures.hello) (Source [] EOF)
    = MultiReader (BytesReader Fixtures.hello) rest /\
    contents rest = [] /\ terminal rest = EOF.
Proof.
  refine (proj2 (Save_sniff_classifies_prefix Fixtures.detect Fixtures.storage
                   "a/b.txt"
                   (Source [take 3 Fixtures.hello; drop 3 Fixtures.hello] EOF)
                   [WithAutoContentType]
                   {| put_Bucket := "bucket"; put_Key := "a/b.txt";
                      put_Body := MultiReader (BytesReader Fixtures.hello)
                                              (Source [] EOF);
                      put_ContentType := Some "text/plain; charset=utf-8" |}
                   eq_refl eq_refl _ _)).
  - vm_compute. discriminate.
  - vm_compute. reflexivity.
Defined.

Lemma Save_keeps_object_and_stream_witness :
  ReadAll (MultiReader (BytesReader Fixtures.hello) (Source [] EOF)) 4
  = ReadAll (Source [take 3 Fixtures.hello; drop 3 Fixtures.hello] EOF) 4.
Proof.
  destruct (Save_keeps_object_and_stream Fixtures.detect Fixtures.storage
              "a/b.txt"
              (Source [take 3 Fixtures.hello; drop 3 Fixtures.hello] EOF)
              [WithAutoContentType]
              {| put_Bucket := "bucket"; put_Key := "a/b.txt";
                 put_Body := MultiReader (BytesReader Fixtures.hello)
                                         (Source [] EOF);
                 put_ContentType := Some "text/plain; charset=utf-8" |})
    as (_ & _ & _ & _ & Hd).
  - vm_compute. reflexivity.
  - exact (Hd 4%N eq_refl).
Defined.

Lemma package_options_resolution_witness :
  AutoContentType
    (resolveOptions [WithContentType "text/plain"; WithAutoContentType;
                     WithContentType "image/png"]) = true.
Proof.
  assert (Forall (fun o : SaveOption =>
                    o = WithAutoContentType \/ exists ct, o = WithContentType ct)
                 [WithContentType "text/plain"; WithAutoContentType;
                  WithContentType "image/png"]) as Hall.
  { constructor; [right; by eexists |].
    constructor; [by left |].
    constructor; [right; by eexists |].
    constructor. }
  apply (proj2 (proj1 (package_options_resolution _ Hall))).
  apply elem_of_cons. right. apply elem_of_cons. left. reflexivity.
Defined.
